(** * Social trend monitor: tokenizer, frequency aggregation, trend
      classification, cycle orchestration and the dashboard query.

    Shallow embedding of [monitor.py] (class [CloudTrendMonitor]) and of
    [app.py] (class [CloudDatabase]).

    Conventions of the embedding.
    - Python [int] is [Z]; the change percentage, a Python [float], is an exact
      rational [Q].
    - Text is ASCII ([string], [list ascii]); [\w], [\S], [\b], [.] and
      [str.lower] are the ASCII restrictions of Python's.
    - A [Counter] is an insertion-ordered association list (first occurrence
      order, as Python dicts keep it); [previous_trends] is a finite map.
    - Timestamps are microseconds on the clock [datetime.now] reads;
      [isoformat] text compares like the instant it denotes. *)

From Stdlib Require Import ZArith QArith Qround List Ascii String Sorted.
From stdpp Require Import base tactics option list strings gmap sorting.

#[local] Open Scope Z_scope.
#[local] Open Scope string_scope.
#[local] Open Scope list_scope.

(** ** Python's [re] on ASCII text *)
Module Re.

Definition code (c : ascii) : nat := nat_of_ascii c.

Definition is_upper (c : ascii) : bool := (65 <=? code c)%nat && (code c <=? 90)%nat.
Definition is_lower (c : ascii) : bool := (97 <=? code c)%nat && (code c <=? 122)%nat.
Definition is_digit (c : ascii) : bool := (48 <=? code c)%nat && (code c <=? 57)%nat.

(** [[a-zA-Z]] *)
Definition is_alpha (c : ascii) : bool := is_lower c || is_upper c.
(** [\w] *)
Definition is_word (c : ascii) : bool := is_alpha c || is_digit c || (code c =? 95)%nat.
(** [\s]: tab, newline, vertical tab, form feed, carriage return, the four
    separators 28..31 and the space. *)
Definition is_space (c : ascii) : bool :=
  ((9 <=? code c)%nat && (code c <=? 13)%nat)
  || ((28 <=? code c)%nat && (code c <=? 32)%nat).
(** [\S] *)
Definition is_nonspace (c : ascii) : bool := negb (is_space c).
(** [.] (no DOTALL): anything but a newline. *)
Definition is_dot (c : ascii) : bool := negb (code c =? 10)%nat.

Definition lower_ascii (c : ascii) : ascii :=
  if is_upper c then ascii_of_nat (code c + 32) else c.

(** [str.lower] *)
Definition lower (s : list ascii) : list ascii := map lower_ascii s.

(** Longest prefix whose characters all satisfy [p]: a greedy [p+] / [p*]. *)
Fixpoint take_while (p : ascii → bool) (s : list ascii) : list ascii :=
  match s with
  | c :: s' => if p c then c :: take_while p s' else []
  | [] => []
  end.

(** A compiled pattern tried at one position: the character before the
    position (for [\b]) and the text from the position on; the result is
    the matched text. None of the patterns below matches the empty
    string. *)
Definition pattern := option ascii → list ascii → option (list ascii).

(** [c p+] : a literal character followed by a greedy non-empty run. *)
Definition lit_then_run (c : ascii) (p : ascii → bool) (s : list ascii)
  : option (list ascii) :=
  match s with
  | c' :: rest =>
      if decide (c' = c) then
        match take_while p rest with
        | [] => None
        | run => Some (c :: run)
        end
      else None
  | [] => None
  end.

(** [#\w+] *)
Definition hashtag_re : pattern := λ _ s, lit_then_run "#" is_word s.

(** [http\S+] *)
Definition url_re (s : list ascii) : option (list ascii) :=
  match s with
  | "h" :: "t" :: "t" :: "p" :: rest =>
      match take_while is_nonspace rest with
      | [] => None
      | run => Some ("h" :: "t" :: "t" :: "p" :: run)
      end
  | _ => None
  end%char.

(** [.*?] followed by the literal [close]: the lazy star stops at the
    first [close] and cannot cross a newline. *)
Fixpoint lazy_until (close : ascii) (s : list ascii) : option (list ascii) :=
  match s with
  | [] => None
  | c :: s' =>
      if decide (c = close) then Some [c]
      else if is_dot c then cons c <$> lazy_until close s'
      else None
  end.

(** [\[.*?\]] and [\(.*?\)] *)
Definition span_re (open close : ascii) (s : list ascii) : option (list ascii) :=
  match s with
  | c :: rest => if decide (c = open) then cons c <$> lazy_until close rest else None
  | [] => None
  end.

(** [http\S+|@\w+|\[.*?\]|\(.*?\)] : the alternatives are tried in order. *)
Definition strip_re : pattern := λ _ s,
  match url_re s with
  | Some m => Some m
  | None =>
      match lit_then_run "@" is_word s with
      | Some m => Some m
      | None =>
          match span_re "[" "]" s with
          | Some m => Some m
          | None => span_re "(" ")" s
          end
      end
  end.

Definition is_word_at (c : option ascii) : bool :=
  match c with Some c => is_word c | None => false end.

(** [\b] between two neighbouring positions (the ends of the text count as
    non-word). *)
Definition boundary (before after : option ascii) : bool :=
  xorb (is_word_at before) (is_word_at after).

(** Backtracking of the greedy [{3,}]: the longest candidate first, then
    one character less, down to three, until [\b] holds after it. *)
Fixpoint backtrack (n : nat) (s : list ascii) : option (list ascii) :=
  if (n <? 3)%nat then None
  else if boundary (last (take n s)) (head (drop n s)) then Some (take n s)
  else match n with
       | S n' => backtrack n' s
       | O => None
       end.

(** [\b[a-zA-Z]{3,}\b] *)
Definition word_re : pattern := λ prev s,
  if boundary prev (head s)
  then backtrack (length (take_while is_alpha s)) s
  else None.

(** The scan shared by [re.findall] and [re.sub]: the pattern is tried at
    each position from left to right, and after a match the scan resumes
    at the end of the match ([skip] counts the characters of the match
    still to pass over). *)
Fixpoint findall_from (p : pattern) (skip : nat) (prev : option ascii)
    (s : list ascii) : list (list ascii) :=
  match s with
  | [] => []
  | c :: s' =>
      match skip with
      | S k => findall_from p k (Some c) s'
      | O =>
          match p prev s with
          | Some m => m :: findall_from p (length m - 1) (Some c) s'
          | None => findall_from p 0 (Some c) s'
          end
      end
  end.

(** [re.findall(p, s)] for a pattern without groups. *)
Definition findall (p : pattern) (s : list ascii) : list (list ascii) :=
  findall_from p 0 None s.

Fixpoint sub_from (p : pattern) (skip : nat) (prev : option ascii)
    (s : list ascii) : list ascii :=
  match s with
  | [] => []
  | c :: s' =>
      match skip with
      | S k => sub_from p k (Some c) s'
      | O =>
          match p prev s with
          | Some m => sub_from p (length m - 1) (Some c) s'
          | None => c :: sub_from p 0 (Some c) s'
          end
      end
  end.

(** [re.sub(p, '', s)] *)
Definition sub (p : pattern) (s : list ascii) : list ascii :=
  sub_from p 0 None s.

End Re.

(** ** Values shared by the monitor and the dashboard *)

(** [sorted(items, key=..., reverse=True)]: a stable sort, so items with equal
    keys keep the order they had in the input. Insertion from the right end:
    an item is placed before the first item whose key is not larger. *)
Section stable_sort.
Context {A : Type} (key : A → Z).

Fixpoint insert_desc (x : A) (l : list A) : list A :=
  match l with
  | [] => [x]
  | y :: l' => if decide (key y <= key x) then x :: l else y :: insert_desc x l'
  end.

Definition sorted_desc (l : list A) : list A := foldr insert_desc [] l.
End stable_sort.

(** A row of table [trends]. *)
Record trend_row := TrendRow {
  trend_word : string;
  trend_count : Z;
  trend_source : string;
  trend_timestamp : Z
}.

(** A row of table [alerts]; [alert_type] is ['new'] or ['spike']. *)
Inductive alert_type := New | Spike.

Record alert_row := AlertRow {
  row_word : string;
  row_count : Z;
  row_change_percent : Q;
  row_alert_type : alert_type;
  row_timestamp : Z
}.

(** The committed content of [trends.db]. *)
Record database := Database {
  trends_table : list trend_row;
  alerts_table : list alert_row
}.

Inductive exn :=
  | RequestException      (* requests.get: network error or timeout *)
  | PayloadError          (* response.json() or the indexing of its result *)
  | SqliteError           (* sqlite3.connect / execute / commit *)
  | OverflowError.        (* datetime arithmetic out of range *)

Inductive outcome (A : Type) :=
  | Ok (a : A)
  | Raise (e : exn).
Arguments Ok {A} a.
Arguments Raise {A} e.

(** ** monitor.py *)
Module CloudTrendMonitor.

(** One entry of the dictionaries appended to [trends] in
    [detect_trends]. *)
Record alert := Alert {
  alert_word : string;
  alert_count : Z;
  alert_kind : alert_type;
  alert_change : Q
}.

Inductive log_entry :=
  | Info_cycle_start
  | Info_scraped (n : nat)
  | Error_scraping (e : exn)
  | Warning_no_words
  | Info_saved (n_words n_alerts : nat)
  | Info_no_trends
  | Info_trending (top : list alert)
  | Info_cycle_complete (n_words n_trends : nat)
  | Info_sleeping
  | Error_unexpected (e : exn).

(** The monitor object, the database file it writes and the log. *)
Record state := State {
  previous_trends : gmap string Z;
  db : database;
  log : list log_entry
}.

(** What one post of a listing carries. *)
Record post := Post {
  title : string;
  selftext : string
}.

(** An HTTP response: [json] is [None] when decoding the body or reading
    [data['data']['children']] raises. *)
Record response := Response {
  status_code : Z;
  json : option (list post)
}.

(** What lies outside the process during one cycle. *)
Record world := World {
  requests_get : string → outcome response;
  now : Z;
  db_writable : bool
}.

(** Computations that read and write the state and may raise; a raised
    exception keeps the writes made before it. *)
Definition M (A : Type) : Type := state → outcome A * state.

Definition ret {A} (a : A) : M A := λ st, (Ok a, st).
Definition raise {A} (e : exn) : M A := λ st, (Raise e, st).
Definition bind {A B} (m : M A) (k : A → M B) : M B := λ st,
  match m st with
  | (Ok a, st') => k a st'
  | (Raise e, st') => (Raise e, st')
  end.
Definition try_except {A} (m : M A) (handler : exn → M A) : M A := λ st,
  match m st with
  | (Ok a, st') => (Ok a, st')
  | (Raise e, st') => handler e st'
  end.
Definition lift {A} (o : outcome A) : M A := λ st, (o, st).
Definition get_previous_trends : M (gmap string Z) := λ st, (Ok (previous_trends st), st).
Definition set_previous_trends (m : gmap string Z) : M unit := λ st,
  (Ok tt, {| previous_trends := m; db := db st; log := log st |}).
Definition commit (f : database → database) : M unit := λ st,
  (Ok tt, {| previous_trends := previous_trends st; db := f (db st); log := log st |}).
Definition logger (e : log_entry) : M unit := λ st,
  (Ok tt, {| previous_trends := previous_trends st; db := db st; log := log st ++ [e] |}).

Declare Scope monitor_scope.
Delimit Scope monitor_scope with monitor.
Notation "x <- m ;; k" := (bind m (λ x, k))
  (at level 100, m at next level, right associativity) : monitor_scope.
Notation "m ;; k" := (bind m (λ _, k))
  (at level 100, right associativity) : monitor_scope.
#[local] Open Scope monitor_scope.

(** [for x in xs: acc = body(acc, x)] with a body that may raise. *)
Fixpoint for_each {A B} (xs : list A) (acc : B) (body : B → A → M B) : M B :=
  match xs with
  | [] => ret acc
  | x :: xs' => acc' <- body acc x ;; for_each xs' acc' body
  end.

Definition stopwords : list string :=
  ["the"; "and"; "for"; "are"; "but"; "not"; "you"; "all";
   "can"; "had"; "her"; "was"; "one"; "our"; "out"; "day";
   "get"; "has"; "him"; "his"; "how"; "its"; "may"; "new";
   "now"; "old"; "see"; "two"; "who"; "boy"; "did"; "this";
   "that"; "with"; "have"; "from"; "they"; "know"; "want";
   "been"; "good"; "much"; "some"; "time"; "very"; "when";
   "come"; "here"; "just"; "like"; "long"; "make"; "many";
   "over"; "such"; "take"; "than"; "them"; "well"; "were";
   "what"; "will"; "your"; "about"; "after"; "again"; "back";
   "could"; "first"; "found"; "great"; "group"; "hand"; "high";
   "keep"; "large"; "last"; "left"; "life"; "live"; "made";
   "might"; "move"; "must"; "name"; "need"; "never"; "next";
   "number"; "part"; "place"; "point"; "put"; "right"; "said";
   "same"; "seem"; "small"; "still"; "tell"; "think"; "turn";
   "use"; "want"; "way"; "where"; "which"; "work"; "world";
   "year"; "young"; "reddit"; "comment"; "comments"; "post"].

Definition hashtags_of (text : list ascii) : list string :=
  string_of_list_ascii <$> Re.findall Re.hashtag_re text.

Definition words_of (text : list ascii) : list string :=
  string_of_list_ascii <$> Re.findall Re.word_re text.

(** [clean_text]; [None] is Python's [None]. *)
Definition clean_text (text : option string) : list string :=
  match text with
  | None | Some "" => []
  | Some text =>
      let text := Re.lower (list_ascii_of_string text) in
      let hashtags := hashtags_of text in
      let text := Re.sub Re.strip_re text in
      let words := words_of text in
      let clean_words :=
        filter (λ w, (w ∉ stopwords) ∧ (4 ≤ String.length w)%nat) words in
      hashtags ++ clean_words
  end.

Definition subreddits : list string :=
  ["all"; "popular"; "worldnews"; "technology"; "science"].

Definition url_of (subreddit : string) : string :=
  "https://www.reddit.com/r/" +:+ subreddit +:+ "/hot.json?limit=25".

(** [scrape_reddit]: one [try] around the whole loop. *)
Definition scrape_reddit (w : world) : M (list string) :=
  try_except
    (all_words <- for_each (take 2 subreddits) [] (λ all_words subreddit,
       response <- lift (requests_get w (url_of subreddit)) ;;
       if decide (status_code response = 200) then
         match json response with
         | Some children =>
             ret (foldl (λ all_words post,
                    all_words ++ clean_text (Some (title post +:+ " " +:+ selftext post)))
                  all_words children)
         | None => raise PayloadError
         end
       else ret all_words) ;;
     logger (Info_scraped (length all_words)) ;;
     ret all_words)
    (λ e, logger (Error_scraping e) ;; ret []).

(** [Counter]: a token seen again has its count incremented in place, a
    token seen for the first time is added at the end. *)
Fixpoint incr (word : string) (counts : list (string * Z)) : list (string * Z) :=
  match counts with
  | [] => [(word, 1)]
  | (k, n) :: counts' =>
      if decide (k = word) then (k, n + 1) :: counts'
      else (k, n) :: incr word counts'
  end.

Definition Counter (words : list string) : list (string * Z) :=
  foldl (λ counts word, incr word counts) [] words.

(** [Counter.most_common(n)], that is [heapq.nlargest(n, items, key=count)],
    which is [sorted(items, key=count, reverse=True)[:n]]: the [n] first
    items of the items sorted by decreasing count. *)
Definition most_common (n : nat) (counts : list (string * Z)) : list (string * Z) :=
  take n (sorted_desc snd counts).

(** [dict(items)]: a later item overwrites an earlier one with its key. *)
Definition dict (items : list (string * Z)) : gmap string Z :=
  foldl (λ m item, <[item.1 := item.2]> m) ∅ items.

(** [((count - previous_count) / previous_count) * 100] *)
Definition change_percent (count previous_count : Z) : Q :=
  (inject_Z (count - previous_count) / inject_Z previous_count * 100)%Q.

(** The body of the loop of [detect_trends]: what it appends to [trends]
    for one item of [most_common(30)]. *)
Definition trend_of (previous_trends : gmap string Z) (word : string) (count : Z)
  : list alert :=
  if decide (2 <= count) then
    let previous_count := default 0 (previous_trends !! word) in
    if decide (previous_count = 0 ∧ 3 <= count) then
      [Alert word count New 0%Q]
    else if decide (0 < previous_count) then
      if Qle_bool 50 (change_percent count previous_count) then
        [Alert word count Spike (change_percent count previous_count)]
      else []
    else []
  else [].

Definition detect_trends (current_words : list string) : M (list alert) :=
  match current_words with
  | [] => ret []
  | _ =>
      let current_counts := Counter current_words in
      previous <- get_previous_trends ;;
      let trends :=
        foldl (λ trends item, trends ++ trend_of previous item.1 item.2)
              [] (most_common 30 current_counts) in
      set_previous_trends (dict (most_common 100 current_counts)) ;;
      ret trends
  end.

(** [save_data]: the rows are committed together at the end; when the
    database cannot be written the call raises and commits nothing. *)
Definition save_data (w : world) (words : list string) (trends : list alert) : M unit :=
  if db_writable w then
    let timestamp := now w in
    let word_counts := Counter words in
    commit (λ d,
      {| trends_table := d.(trends_table) ++
           map (λ item, TrendRow item.1 item.2 "reddit" timestamp) word_counts;
         alerts_table := d.(alerts_table) ++
           map (λ trend, AlertRow (alert_word trend) (alert_count trend)
                           (alert_change trend) (alert_kind trend) timestamp)
               trends |}) ;;
    logger (Info_saved (length word_counts) (length trends))
  else raise SqliteError.

Definition print_trends (trends : list alert) : M unit :=
  match trends with
  | [] => logger Info_no_trends
  | _ => logger (Info_trending (take 10 trends))
  end.

Definition run_cycle (w : world) : M unit :=
  logger Info_cycle_start ;;
  words <- scrape_reddit w ;;
  match words with
  | [] => logger Warning_no_words
  | _ =>
      trends <- detect_trends words ;;
      save_data w words trends ;;
      print_trends trends ;;
      logger (Info_cycle_complete (length words) (length trends))
  end.

(** One turn of the loop of [run_forever]. *)
Definition run_forever_step (w : world) : M unit :=
  try_except
    (run_cycle w ;; logger Info_sleeping)
    (λ e, logger (Error_unexpected e)).

(** The first turns of the loop of [run_forever], one world per turn.
    [KeyboardInterrupt], which ends the loop, is not among the exceptions
    of the embedding. *)
Fixpoint run_forever_turns (worlds : list world) : M unit :=
  match worlds with
  | [] => ret tt
  | w :: worlds' => run_forever_step w ;; run_forever_turns worlds'
  end.

End CloudTrendMonitor.

(** ** app.py *)
Module CloudDatabase.

(** Nearest integer, ties to the even one. *)
Definition round_half_even (q : Q) : Z :=
  let f := Qfloor q in
  match (q - inject_Z f ?= 1 # 2)%Q with
  | Lt => f
  | Gt => f + 1
  | Eq => if Z.even f then f else f + 1
  end.

Definition day_us : Z := 86400 * 1000000.

(** [timedelta(hours=hours)], in microseconds; a [timedelta] holds less
    than a thousand million days either way. *)
Definition timedelta_hours (hours : Q) : outcome Z :=
  let us := round_half_even (hours * 3600000000)%Q in
  if decide (- 999999999 * day_us <= us < 1000000000 * day_us)
  then Ok us else Raise OverflowError.

(** [datetime.min] and [datetime.max], counted from 1970-01-01T00:00:00. *)
Definition datetime_min : Z := - 719162 * day_us.
Definition datetime_max : Z := 2932897 * day_us - 1.

(** [(datetime.now() - timedelta(hours=hours))] *)
Definition cutoff_of (now : Z) (hours : Q) : outcome Z :=
  match timedelta_hours hours with
  | Ok delta =>
      if decide (datetime_min <= now - delta <= datetime_max)
      then Ok (now - delta) else Raise OverflowError
  | Raise e => Raise e
  end.

(** [GROUP BY word, source] with [SUM(count)]: one group per pair, in the
    order the pairs are first met. *)
Fixpoint add_to_group (r : trend_row) (groups : list (string * Z * string))
  : list (string * Z * string) :=
  match groups with
  | [] => [(trend_word r, trend_count r, trend_source r)]
  | (word, total_count, source) :: groups' =>
      if decide (word = trend_word r ∧ source = trend_source r)
      then (word, total_count + trend_count r, source) :: groups'
      else (word, total_count, source) :: add_to_group r groups'
  end.

Definition group_by_word_source (rows : list trend_row) : list (string * Z * string) :=
  foldl (λ groups r, add_to_group r groups) [] rows.

Definition total_count (g : string * Z * string) : Z := g.1.2.

(** The [SELECT] of [get_recent_trends]. *)
Definition select_recent (d : database) (cutoff : Z) : list (string * Z * string) :=
  let recent := filter (λ r, cutoff < trend_timestamp r) d.(trends_table) in
  take 20 (sorted_desc total_count (group_by_word_source recent)).

Definition get_recent_trends (d : database) (now : Z) (hours : Q)
  : outcome (list (string * Z * string)) :=
  match cutoff_of now hours with
  | Ok cutoff => Ok (select_recent d cutoff)
  | Raise e => Raise e
  end.

End CloudDatabase.

(** ** app.py: the routes *)
Module App.

(** The two literals chosen for ['emoji'] in [get_trends]: the first when
    the count is above 10, the second otherwise. *)
Inductive emoji := Fire | Chart.

(** One object of the JSON array [get_trends] returns. *)
Record trend_item := TrendItem {
  item_word : string;
  item_count : Z;
  item_source : string;
  item_emoji : emoji
}.

Definition hours_map : gmap string Q :=
  list_to_map [("10min", 17 # 100); ("1hour", 1); ("6hour", 6); ("24hour", 24)]%Q.

(** [/api/trends/<timeframe>]; an exception leaves the view uncaught. *)
Definition get_trends (d : database) (now : Z) (timeframe : string)
  : outcome (list trend_item) :=
  let hours := default 1%Q (hours_map !! timeframe) in
  match CloudDatabase.get_recent_trends d now hours with
  | Ok trends =>
      Ok (foldl (λ result row,
            result ++ [TrendItem row.1.1 row.1.2 row.2
                         (if decide (10 < row.1.2) then Fire else Chart)])
          [] trends)
  | Raise e => Raise e
  end.

(** The JSON object [get_stats] returns. *)
Record stats := Stats {
  total_trends : Z;
  unique_words : Z;
  alerts_today : Z;
  status : string
}.

(** [/api/stats]. Each of the three statements compares the stored text
    with SQLite's [datetime('now', '-24 hours')], evaluated when the
    statement runs: what that comparison selects is a parameter, one per
    statement ([recent1] for [COUNT], [recent2] for [COUNT(DISTINCT word)],
    [recent3] for the alerts). The three statements read the same database:
    no commit of the monitor comes between them. *)
Definition get_stats (recent1 recent2 recent3 : Z → bool) (d : database) : stats :=
  let total_trends :=
    length (filter (λ r, recent1 (trend_timestamp r)) d.(trends_table)) in
  let unique_words :=
    size (list_to_set
            (trend_word <$> filter (λ r, recent2 (trend_timestamp r)) d.(trends_table))
          : gset string) in
  let alerts_count :=
    length (filter (λ r, recent3 (row_timestamp r)) d.(alerts_table)) in
  {| total_trends := Z.of_nat total_trends;
     unique_words := Z.of_nat unique_words;
     alerts_today := Z.of_nat alerts_count;
     status := "active" |}.

End App.

(** ** Vocabulary of the properties *)

Import CloudTrendMonitor.

(** *** Tokens *)



(** *** Frequency table and ranking *)

(** Sum of the counts of a frequency table. *)
Definition sum_counts (counts : list (string * Z)) : Z :=
  foldr (λ item acc, item.2 + acc) 0 counts.

(** Number of occurrences of a token in a token sequence. *)
Definition occurrences (w : string) (ws : list string) : Z :=
  Z.of_nat (length (filter (λ x, x = w) ws)).

(** Number of distinct tokens of a token sequence. *)
Definition distinct (words : list string) : nat :=
  size (list_to_set words : gset string).

(** Position of the first occurrence of a token in a token sequence (the
    length of the sequence when the token does not occur). *)
Fixpoint first_index (w : string) (ws : list string) : nat :=
  match ws with
  | [] => O
  | x :: ws' => if decide (x = w) then O else S (first_index w ws')
  end.

(** Ranking of items by a key, ties left to an order [before]. *)
Definition ranked {A} (key : A → Z) (before : relation A) : relation A :=
  λ a b, key b < key a ∨ (key a = key b ∧ before a b).

(** [a] ranks before [b]: a larger count, or the same count and an earlier
    first occurrence in [words]. *)
Definition outranks (words : list string) (a b : string * Z) : Prop :=
  b.2 < a.2 ∨ (a.2 = b.2 ∧ (first_index a.1 words < first_index b.1 words)%nat).

(** *** Classification *)

(** The alerts a classification emits: what the loop body appends for each
    of the thirty first items of the ranking, in that order. *)
Definition alerts_of (previous : gmap string Z) (words : list string) : list alert :=
  most_common 30 (Counter words) ≫= λ item, trend_of previous item.1 item.2.

(** *** One cycle *)

(** The tokens of the posts of one listing. *)
Definition tokens_of_posts (children : list post) : list string :=
  children ≫= λ post, clean_text (Some (title post +:+ " " +:+ selftext post)).

(** What the fetch of one source adds to [all_words], or the exception it
    ends the loop with. *)
Definition contribution (fetched : outcome response) : outcome (list string) :=
  match fetched with
  | Raise e => Raise e
  | Ok r =>
      if decide (status_code r = 200) then
        match json r with
        | Some children => Ok (tokens_of_posts children)
        | None => Raise PayloadError
        end
      else Ok []
  end.

(** The two sources a cycle fetches, in order. *)
Definition fetched_all (w : world) : outcome (list string) :=
  contribution (requests_get w (url_of "all")).

Definition fetched_popular (w : world) : outcome (list string) :=
  contribution (requests_get w (url_of "popular")).

(** The tokens of a fetched source, none when the fetch failed. *)
Definition or_nothing (fetched : outcome (list string)) : list string :=
  match fetched with
  | Ok ws => ws
  | Raise _ => []
  end.

(** The tokens [scrape_reddit] returns and the line it logs. *)
Definition scraped (w : world) : list string * log_entry :=
  match fetched_all w with
  | Raise e => ([], Error_scraping e)
  | Ok a =>
      match fetched_popular w with
      | Raise e => ([], Error_scraping e)
      | Ok b => (a ++ b, Info_scraped (length (a ++ b)))
      end
  end.

(** The state with lines added to the log. *)
Definition logged (st : state) (entries : list log_entry) : state :=
  {| previous_trends := previous_trends st; db := db st; log := log st ++ entries |}.

(** The line [print_trends] logs. *)
Definition printed (trends : list alert) : log_entry :=
  match trends with
  | [] => Info_no_trends
  | _ => Info_trending (take 10 trends)
  end.

(** The database after the rows of one cycle have been committed. *)
Definition saved (w : world) (words : list string) (trends : list alert)
    (d : database) : database :=
  {| trends_table := trends_table d ++
       ((λ item, TrendRow item.1 item.2 "reddit" (now w)) <$> Counter words);
     alerts_table := alerts_table d ++
       ((λ trend, AlertRow (alert_word trend) (alert_count trend)
                    (alert_change trend) (alert_kind trend) (now w)) <$> trends) |}.

(** *** The dashboard query *)


(** Sum of the counts of rows of [trends]. *)
Definition sum_of_counts (rows : list trend_row) : Z :=
  foldr (λ r acc, trend_count r + acc) 0 rows.


(** The (token, source) pair of a row of the query. *)
Definition group_key (g : string * Z * string) : string * string := (g.1.1, g.2).

(** *** Further vocabulary *)

(** [str.lower] on a token or a text. *)
Definition lower_string (t : string) : string :=
  string_of_list_ascii (Re.lower (list_ascii_of_string t)).

(** A token without capital letters. *)
Definition no_capital (w : string) : Prop :=
  Forall (λ c, Re.is_upper c = false) (list_ascii_of_string w).

(** The (token, count) pair an alert is about. *)
Definition alert_item (a : alert) : string * Z := (alert_word a, alert_count a).

(** The mapping a turn of the loop leaves behind: that of the cycle when it
    collected tokens, the one before otherwise. *)
Definition retained_after (previous : gmap string Z) (w : world) : gmap string Z :=
  match (scraped w).1 with
  | [] => previous
  | words => dict (most_common 100 (Counter words))
  end.

(** *** Sample inputs *)

(** A listing of one post whose title is three times the same word. *)
Definition rocket_listing : outcome response :=
  Ok (Response 200 (Some [Post "rocket rocket rocket" ""])).

(** A monitor just started, with an empty database. *)
Definition fresh_state : state := State ∅ (Database [] []) [].

(** Both sources answer, the database cannot be written. *)
Definition world_db_down : world :=
  {| requests_get := λ _, rocket_listing; now := 0; db_writable := false |}.

(** The first source fails, the second answers, the database is fine. *)
Definition world_first_fetch_fails : world :=
  {| requests_get := λ url,
       if decide (url = url_of "all") then Raise RequestException
       else rocket_listing;
     now := 0; db_writable := true |}.

(** The first source answers with status 503, the second with a listing. *)
Definition world_first_unavailable : world :=
  {| requests_get := λ url,
       if decide (url = url_of "all") then Ok (Response 503 None)
       else rocket_listing;
     now := 0; db_writable := true |}.

(** Like [world_first_unavailable], with other answers for the subreddits
    that are never fetched. *)
Definition world_other_subreddits : world :=
  {| requests_get := λ url,
       if decide (url = url_of "all") then Ok (Response 503 None)
       else if decide (url = url_of "popular") then rocket_listing
       else Raise RequestException;
     now := 5; db_writable := false |}.

(** Three turns of the loop: persistence fails, a fetch fails, all is
    well. *)
Definition three_turns : list world :=
  [world_db_down; world_first_fetch_fails; world_first_unavailable].

(** A classifier that saw [rocket] ten times in the previous cycle, and a
    cycle with sixteen [rocket] and three [alpha]. *)
Definition rocket_state : state := State (dict [("rocket", 10)]) (Database [] []) [].

Definition rocket_words : list string := replicate 16 "rocket" ++ replicate 3 "alpha".

(** A token sequence of 120 distinct one-character tokens. *)
Definition many_words : list string :=
  (λ n, String (ascii_of_nat n) EmptyString) <$> seq 33 120.

(** ** Worked examples *)

Example clean_text_example :
  clean_text (Some "Hello #World the ROCKET rocket! http://x.com/a @bob [hid den] (more) #a big bigger")
  = ["#world"; "#a"; "hello"; "rocket"; "rocket"; "bigger"].
Proof. vm_compute. reflexivity. Qed.

Example clean_text_newline_example :
  clean_text (Some ("[not" +:+ String (ascii_of_nat 10) "stripped] word1 words"))
  = ["stripped"; "words"].
Proof. vm_compute. reflexivity. Qed.

Example most_common_example :
  most_common 3 (Counter ["c"; "b"; "a"; "b"; "c"; "a"; "d"; "d"; "b"])
  = [("b", 3); ("c", 2); ("a", 2)].
Proof. vm_compute. reflexivity. Qed.

Example new_alert_example :
  (detect_trends (replicate 5 "rocket") fresh_state).1
  = Ok [Alert "rocket" 5 New 0%Q].
Proof. vm_compute. reflexivity. Qed.

Example spike_alert_example :
  (detect_trends (replicate 16 "rocket") rocket_state).1
  = Ok [Alert "rocket" 16 Spike (change_percent 16 10)]
  ∧ (change_percent 16 10 == 60)%Q.
Proof. split; vm_compute; reflexivity. Qed.

Example no_alert_example :
  (detect_trends (replicate 12 "rocket") rocket_state).1 = Ok []
  ∧ (change_percent 12 10 == 20)%Q.
Proof. split; vm_compute; reflexivity. Qed.

(** Three cycles in a row with 3, 5 and 6 times the token [alpha]: a New
    alert, a Spike alert (the count grows by two thirds), no alert (the
    count grows by a fifth). *)
Example three_cycles_example :
  let c1 := detect_trends (replicate 3 "alpha") fresh_state in
  let c2 := detect_trends (replicate 5 "alpha") c1.2 in
  let c3 := detect_trends (replicate 6 "alpha") c2.2 in
  c1.1 = Ok [Alert "alpha" 3 New 0%Q]
  ∧ previous_trends c1.2 = dict [("alpha", 3)]
  ∧ c2.1 = Ok [Alert "alpha" 5 Spike (change_percent 5 3)]
  ∧ (change_percent 5 3 == 200 # 3)%Q
  ∧ c3.1 = Ok []
  ∧ (change_percent 6 5 == 20)%Q.
Proof. repeat split; vm_compute; reflexivity. Qed.

Example get_recent_trends_example :
  CloudDatabase.get_recent_trends
    (Database [TrendRow "a" 3 "reddit" 7200000000; TrendRow "b" 5 "reddit" 7200000001;
               TrendRow "a" 4 "reddit" 9000000000; TrendRow "c" 9 "reddit" 10] [])
    10000000000 1
  = Ok [("a", 7, "reddit"); ("b", 5, "reddit")].
Proof. vm_compute. reflexivity. Qed.

(** ** The stable sort *)
Section stable_sort_facts.
Context {A : Type} (key : A → Z).

Lemma insert_desc_Permutation (x : A) (l : list A) :
  insert_desc key x l ≡ₚ x :: l.
Proof.
  induction l as [|y l IH]; simpl; [done|].
  case_decide; [done|].
  rewrite IH. apply Permutation_swap.
Qed.

Lemma sorted_desc_Permutation (l : list A) : sorted_desc key l ≡ₚ l.
Proof.
  induction l as [|x l IH]; simpl; [done|].
  by rewrite insert_desc_Permutation, IH.
Qed.

Lemma elem_of_sorted_desc (x : A) (l : list A) : x ∈ sorted_desc key l ↔ x ∈ l.
Proof. by rewrite sorted_desc_Permutation. Qed.

Lemma length_sorted_desc (l : list A) : length (sorted_desc key l) = length l.
Proof. by rewrite sorted_desc_Permutation. Qed.

Lemma ranked_key_le (before : relation A) (a b : A) :
  ranked key before a b → key b <= key a.
Proof. unfold ranked. lia. Qed.

(** Inserting an item that precedes, in the input, every item already
    sorted keeps the list ranked. *)
Lemma insert_desc_ranked (before : relation A) (x : A) (l : list A) :
  StronglySorted (ranked key before) l →
  Forall (before x) l →
  StronglySorted (ranked key before) (insert_desc key x l).
Proof.
  induction l as [|y l IH]; intros Hs Hb; simpl.
  - repeat constructor.
  - apply StronglySorted_inv in Hs as [Hs Hy].
    rewrite Forall_forall in Hy.
    case_decide as Hk.
    + constructor; [by constructor; [|apply Forall_forall]|].
      rewrite Forall_forall in Hb.
      apply Forall_forall. intros b Hin. unfold ranked.
      assert (key b <= key y) as Hby.
      { apply elem_of_cons in Hin as [->|Hin]; [lia|].
        eapply ranked_key_le, Hy, Hin. }
      specialize (Hb b Hin).
      destruct (decide (key b < key x)); [by left|right; split; [lia|done]].
    + inversion Hb as [|?? Hxy Hb']; subst.
      constructor; [by apply IH|].
      apply Forall_forall. intros b Hin.
      rewrite insert_desc_Permutation in Hin.
      apply elem_of_cons in Hin as [->|Hin].
      * left. lia.
      * by apply Hy.
Qed.

(** The sort is by decreasing key and stable: items with equal keys keep
    their input order. *)
Lemma sorted_desc_ranked (before : relation A) (l : list A) :
  StronglySorted before l →
  StronglySorted (ranked key before) (sorted_desc key l).
Proof.
  induction 1 as [|x l Hs IH Hx]; [constructor|].
  change (sorted_desc key (x :: l)) with (insert_desc key x (sorted_desc key l)).
  apply insert_desc_ranked; [exact IH|].
  apply Forall_forall. intros b Hin.
  rewrite Forall_forall in Hx. apply Hx.
  by rewrite elem_of_sorted_desc in Hin.
Qed.

Lemma take_sorted_desc_ranked (before : relation A) (n : nat) (l : list A) :
  StronglySorted before l →
  StronglySorted (ranked key before) (take n (sorted_desc key l)).
Proof.
  intros Hs. apply (StronglySorted_app_1_l _ _ (drop n (sorted_desc key l))).
  rewrite take_drop. by apply sorted_desc_ranked.
Qed.

(** Whatever the first [n] items of the sort leave out ranks after each of
    them. *)
Lemma take_sorted_desc_top (before : relation A) (n : nat) (l : list A) (a b : A) :
  StronglySorted before l →
  a ∈ take n (sorted_desc key l) →
  b ∈ drop n (sorted_desc key l) →
  ranked key before a b.
Proof.
  intros Hs Ha Hb.
  eapply (StronglySorted_app_1_elem_of _ (take n _) (drop n _)); [|done..].
  rewrite take_drop. by apply sorted_desc_ranked.
Qed.
End stable_sort_facts.

(** ** The frequency table *)
Section counter_facts.
Implicit Types (w k : string) (ws : list string) (c : list (string * Z)).

Lemma Counter_snoc ws w : Counter (ws ++ [w]) = incr w (Counter ws).
Proof. unfold Counter. by rewrite foldl_snoc. Qed.

Lemma sum_counts_incr w c : sum_counts (incr w c) = sum_counts c + 1.
Proof.
  induction c as [|[k n] c IH]; simpl; [done|].
  case_decide; simpl; lia.
Qed.

Lemma sum_counts_Counter ws : sum_counts (Counter ws) = Z.of_nat (length ws).
Proof.
  induction ws as [|w ws IH] using rev_ind; [done|].
  rewrite Counter_snoc, sum_counts_incr, IH, length_app. simpl. lia.
Qed.

Lemma incr_fresh w c : w ∉ c.*1 → incr w c = c ++ [(w, 1)].
Proof.
  induction c as [|[k n] c IH]; simpl; intros Hw; [done|].
  apply not_elem_of_cons in Hw as [Hne Hw].
  case_decide; [congruence|]. by rewrite IH.
Qed.

Lemma incr_keys w c : w ∈ c.*1 → (incr w c).*1 = c.*1.
Proof.
  induction c as [|[k n] c IH]; simpl; intros Hw; [by apply elem_of_nil in Hw|].
  case_decide; [done|]. simpl. f_equal. apply IH.
  apply elem_of_cons in Hw as [->|Hw]; [congruence|done].
Qed.

(** The items of the table after one more token. *)
Lemma elem_of_incr w c k n :
  NoDup c.*1 →
  (k, n) ∈ incr w c ↔
    (k ≠ w ∧ (k, n) ∈ c)
    ∨ (k = w ∧ ((∃ n0, (w, n0) ∈ c ∧ n = n0 + 1) ∨ ((w ∉ c.*1) ∧ n = 1))).
Proof.
  induction c as [|[k' n'] c IH]; simpl; intros Hnd.
  - rewrite list_elem_of_singleton, elem_of_nil. setoid_rewrite elem_of_nil.
    naive_solver.
  - apply NoDup_cons in Hnd as [Hk' Hnd]. specialize (IH Hnd).
    assert (∀ m, (k', m) ∈ c → False) as Hfresh.
    { intros m Hin. apply Hk'. by apply (list_elem_of_fmap_2 fst) in Hin. }
    case_decide as Heq.
    + subst k'. rewrite !elem_of_cons. setoid_rewrite elem_of_cons. naive_solver.
    + rewrite !elem_of_cons, IH. setoid_rewrite elem_of_cons. naive_solver.
Qed.

Lemma NoDup_incr w c : NoDup c.*1 → NoDup (incr w c).*1.
Proof.
  intros Hnd. destruct (decide (w ∈ c.*1)) as [Hin|Hnot].
  - by rewrite incr_keys.
  - rewrite incr_fresh, fmap_app by done. simpl.
    apply NoDup_app. split; [done|]. split; [|apply NoDup_singleton].
    intros x Hx ->%list_elem_of_singleton. done.
Qed.

(** The table has one entry per distinct token. *)
Lemma NoDup_Counter ws : NoDup (Counter ws).*1.
Proof.
  induction ws as [|w ws IH] using rev_ind; [constructor|].
  rewrite Counter_snoc. by apply NoDup_incr.
Qed.

Lemma occurrences_snoc k ws w :
  occurrences k (ws ++ [w]) = occurrences k ws + (if decide (w = k) then 1 else 0).
Proof.
  unfold occurrences. rewrite filter_app, length_app.
  rewrite filter_cons, filter_nil. case_decide; simpl; lia.
Qed.

Lemma occurrences_pos k ws : k ∈ ws ↔ 0 < occurrences k ws.
Proof.
  unfold occurrences. split.
  - intros Hin. assert (k ∈ filter (λ x, x = k) ws) as H
      by by apply list_elem_of_filter.
    destruct (filter _ ws); [by apply elem_of_nil in H|simpl; lia].
  - intros H. destruct (filter (λ x, x = k) ws) as [|x l] eqn:E; [simpl in H; lia|].
    assert (x ∈ filter (λ x, x = k) ws) as Hx by (rewrite E; by left).
    by apply list_elem_of_filter in Hx as [-> ?].
Qed.

(** The table holds exactly the tokens of the sequence, each with its
    number of occurrences. *)
Lemma elem_of_Counter ws k n :
  (k, n) ∈ Counter ws ↔ k ∈ ws ∧ n = occurrences k ws.
Proof.
  revert k n. induction ws as [|w ws IH] using rev_ind; intros k n.
  - split; [intros H; by apply elem_of_nil in H|intros [H _]; by apply elem_of_nil in H].
  - rewrite Counter_snoc, elem_of_incr by apply NoDup_Counter.
    rewrite occurrences_snoc, elem_of_app, list_elem_of_singleton.
    assert (w ∉ (Counter ws).*1 ↔ w ∉ ws) as Hkeys.
    { split; intros Hn Hin; apply Hn.
      - apply (list_elem_of_fmap_2 fst (Counter ws) (w, occurrences w ws)).
        by apply IH.
      - apply list_elem_of_fmap in Hin as ([k' n'] & -> & Hin). by apply IH in Hin as [? _]. }
    split.
    + intros [[Hne Hin]|[-> [(n0 & Hin & ->)|[Hnot ->]]]].
      * apply IH in Hin as [Hin ->]. split; [by left|]. case_decide; [congruence|lia].
      * apply IH in Hin as [Hin ->]. split; [by left|]. case_decide; [done|congruence].
      * split; [by right|]. case_decide; [|congruence].
        apply Hkeys in Hnot. destruct (occurrences_pos w ws) as [_ Hpos].
        destruct (decide (0 < occurrences w ws)); [by apply Hpos in l|].
        unfold occurrences in *. lia.
    + intros [Hin ->]. destruct (decide (k = w)) as [->|Hne].
      * right. split; [done|]. case_decide; [|congruence].
        destruct (decide (w ∈ ws)) as [Hw|Hw].
        -- left. exists (occurrences w ws). split; [by apply IH|done].
        -- right. split; [by apply Hkeys|].
           destruct (occurrences_pos w ws) as [_ Hpos].
           destruct (decide (0 < occurrences w ws)); [by apply Hpos in l|].
           unfold occurrences in *. lia.
      * left. split; [done|]. case_decide; [congruence|].
        apply IH. split; [|lia]. destruct Hin as [?|?]; [done|congruence].
Qed.

Lemma elem_of_Counter_keys ws k : k ∈ (Counter ws).*1 ↔ k ∈ ws.
Proof.
  split.
  - intros ([k' n] & -> & Hin)%list_elem_of_fmap. by apply elem_of_Counter in Hin as [? _].
  - intros Hin. apply (list_elem_of_fmap_2 fst (Counter ws) (k, occurrences k ws)).
    by apply elem_of_Counter.
Qed.
End counter_facts.

(** ** First-occurrence order of the table *)
Section first_occurrence.
Implicit Types (w k : string) (ws : list string) (c : list (string * Z)).

Lemma first_index_lt w ws : w ∈ ws → (first_index w ws < length ws)%nat.
Proof.
  induction ws as [|x ws IH]; simpl; intros Hin; [by apply elem_of_nil in Hin|].
  case_decide; [lia|].
  apply elem_of_cons in Hin as [->|Hin]; [congruence|]. apply IH in Hin. lia.
Qed.

Lemma first_index_app_l w ws ws' :
  w ∈ ws → first_index w (ws ++ ws') = first_index w ws.
Proof.
  induction ws as [|x ws IH]; simpl; intros Hin; [by apply elem_of_nil in Hin|].
  case_decide; [done|]. f_equal. apply IH.
  apply elem_of_cons in Hin as [->|Hin]; [congruence|done].
Qed.

Lemma first_index_fresh_snoc w ws :
  w ∉ ws → first_index w (ws ++ [w]) = length ws.
Proof.
  induction ws as [|x ws IH]; simpl; intros Hin.
  - by case_decide.
  - apply not_elem_of_cons in Hin as [Hne Hin].
    case_decide; [congruence|]. by rewrite IH.
Qed.

Lemma StronglySorted_weaken {A} (R R' : relation A) (l : list A) :
  (∀ a b, a ∈ l → b ∈ l → R a b → R' a b) →
  StronglySorted R l → StronglySorted R' l.
Proof.
  intros HR Hs. revert HR.
  induction Hs as [|a l Hs IH Ha]; intros HR; constructor.
  - apply IH. intros x y Hx Hy. apply HR; by right.
  - rewrite Forall_forall in Ha. apply Forall_forall. intros b Hb.
    apply HR; [by left|by right|by apply Ha].
Qed.

Lemma StronglySorted_of_fmap {A B} (f : A → B) (R : relation B) (l : list A) :
  StronglySorted R (f <$> l) → StronglySorted (λ a b, R (f a) (f b)) l.
Proof.
  induction l as [|a l IH]; intros Hs; [constructor|].
  rewrite fmap_cons in Hs.
  apply StronglySorted_inv in Hs as [Hs Ha]. constructor; [by apply IH|].
  rewrite Forall_forall in Ha. apply Forall_forall. intros b Hb.
  apply Ha. by apply list_elem_of_fmap_2.
Qed.

(** A relation that looks at the tokens only holds as well on any table
    with the same tokens in the same order. *)
Lemma StronglySorted_same_keys (R : relation string) c c' :
  c.*1 = c'.*1 →
  StronglySorted (λ a b, R a.1 b.1) c → StronglySorted (λ a b, R a.1 b.1) c'.
Proof.
  intros Hk Hs. apply StronglySorted_of_fmap. rewrite <- Hk.
  by apply (StronglySorted_fmap fst (λ a b, R a.1 b.1) R).
Qed.

(** The entries of the table are in the order in which the tokens first
    occur. *)
Lemma Counter_first_occurrence ws :
  StronglySorted (λ a b, (first_index a.1 ws < first_index b.1 ws)%nat) (Counter ws).
Proof.
  induction ws as [|w ws IH] using rev_ind; [constructor|].
  rewrite Counter_snoc.
  assert (StronglySorted
            (λ a b, (first_index a.1 (ws ++ [w]) < first_index b.1 (ws ++ [w]))%nat)
            (Counter ws)) as IH'.
  { eapply StronglySorted_weaken; [|exact IH].
    intros [a na] [b nb] [Ha _]%elem_of_Counter [Hb _]%elem_of_Counter. simpl.
    by rewrite !first_index_app_l. }
  destruct (decide (w ∈ (Counter ws).*1)) as [Hin|Hnot].
  - eapply (StronglySorted_same_keys
              (λ a b, (first_index a (ws ++ [w]) < first_index b (ws ++ [w]))%nat));
      [symmetry; by apply incr_keys|done].
  - rewrite incr_fresh by done.
    apply StronglySorted_app_2; [|done|repeat constructor].
    intros [a na] x2 [Ha _]%elem_of_Counter ->%list_elem_of_singleton. simpl.
    rewrite first_index_app_l, first_index_fresh_snoc; [by apply first_index_lt| |done].
    by rewrite elem_of_Counter_keys in Hnot.
Qed.


Lemma most_common_outranks n ws :
  StronglySorted (outranks ws) (most_common n (Counter ws)).
Proof. apply (take_sorted_desc_ranked snd), Counter_first_occurrence. Qed.

Lemma most_common_sublist n c : most_common n c `sublist_of` sorted_desc snd c.
Proof. apply sublist_take. Qed.

Lemma elem_of_most_common n c x : x ∈ most_common n c → x ∈ c.
Proof.
  intros Hin. apply (elem_of_sorted_desc snd).
  eapply elem_of_sublist; [exact Hin|apply most_common_sublist].
Qed.

Lemma NoDup_most_common n c : NoDup c.*1 → NoDup (most_common n c).*1.
Proof.
  intros Hnd. eapply sublist_NoDup; [|apply fmap_sublist, most_common_sublist].
  by rewrite (sorted_desc_Permutation snd).
Qed.

Lemma length_most_common n c : length (most_common n c) = (n `min` length c)%nat.
Proof. unfold most_common. by rewrite length_take, length_sorted_desc. Qed.
End first_occurrence.

(** ** The retained state *)
Section dict_facts.
Implicit Types (k : string) (v : Z) (l : list (string * Z)).

Lemma dict_list_to_map l : NoDup l.*1 → dict l = list_to_map l.
Proof.
  induction l as [|[k v] l IH] using rev_ind; intros Hnd; [done|].
  rewrite fmap_app in Hnd. apply NoDup_app in Hnd as (Hnd & Hk & _).
  unfold dict. rewrite foldl_snoc. fold (dict l). rewrite IH by done. simpl.
  symmetry. apply list_to_map_snoc.
  intros Hin. apply (Hk k Hin). by left.
Qed.

Lemma lookup_dict l k v : NoDup l.*1 → dict l !! k = Some v ↔ (k, v) ∈ l.
Proof. intros Hnd. rewrite dict_list_to_map by done. symmetry. by apply elem_of_list_to_map. Qed.

Lemma lookup_dict_None l k : NoDup l.*1 → dict l !! k = None ↔ k ∉ l.*1.
Proof. intros Hnd. rewrite dict_list_to_map by done. symmetry. apply not_elem_of_list_to_map. Qed.

Lemma size_dict l : NoDup l.*1 → size (dict l) = length l.
Proof. intros Hnd. rewrite dict_list_to_map by done. by apply map_size_list_to_map. Qed.
End dict_facts.

(** ** Classification *)
Section classifier_facts.
Implicit Types (w : string) (c : Z) (st : state) (words : list string).

Lemma foldl_append {A B} (f : A → list B) (l : list A) (acc : list B) :
  foldl (λ acc x, acc ++ f x) acc l = acc ++ (l ≫= f).
Proof.
  revert acc. induction l as [|x l IH]; intros acc.
  - simpl. by rewrite app_nil_r.
  - rewrite bind_cons. simpl. by rewrite IH, app_assoc.
Qed.

Lemma detect_trends_nil st : detect_trends [] st = (Ok [], st).
Proof. done. Qed.

Lemma detect_trends_nonempty words st :
  words ≠ [] →
  detect_trends words st =
    (Ok (alerts_of (previous_trends st) words),
     {| previous_trends := dict (most_common 100 (Counter words));
        db := db st; log := log st |}).
Proof.
  intros Hne. destruct words as [|w words]; [done|].
  unfold detect_trends, bind, get_previous_trends, set_previous_trends, ret.
  simpl previous_trends. by rewrite foldl_append.
Qed.

(** The loop body appends at most one alert, and it is about the item at
    hand. *)
Lemma trend_of_cases previous w c :
  trend_of previous w c = []
  ∨ ∃ kind change, trend_of previous w c = [Alert w c kind change].
Proof.
  unfold trend_of. repeat case_decide; try destruct (Qle_bool _ _); eauto.
Qed.

Lemma trend_of_word previous w c a :
  a ∈ trend_of previous w c → alert_word a = w ∧ alert_count a = c.
Proof.
  destruct (trend_of_cases previous w c) as [->|(kind & change & ->)].
  - by intros ?%elem_of_nil.
  - by intros ->%list_elem_of_singleton.
Qed.

Lemma length_trend_of previous w c : (length (trend_of previous w c) ≤ 1)%nat.
Proof.
  destruct (trend_of_cases previous w c) as [->|(kind & change & ->)]; simpl; lia.
Qed.

Lemma length_bind_trend_of previous (l : list (string * Z)) :
  (length (l ≫= λ item, trend_of previous item.1 item.2) ≤ length l)%nat.
Proof.
  induction l as [|[w c] l IH]; [done|].
  rewrite bind_cons, length_app. simpl.
  pose proof (length_trend_of previous w c). lia.
Qed.

Lemma NoDup_bind_trend_of previous (l : list (string * Z)) :
  NoDup l.*1 →
  NoDup (alert_word <$> (l ≫= λ item, trend_of previous item.1 item.2)).
Proof.
  induction l as [|[w c] l IH]; [constructor|].
  rewrite fmap_cons. intros [Hw Hnd]%NoDup_cons.
  rewrite bind_cons, fmap_app. apply NoDup_app. split; [|split; [|by apply IH]].
  - simpl. destruct (trend_of_cases previous w c) as [->|(kind & change & ->)];
      [constructor|apply NoDup_singleton].
  - intros x (a & -> & Ha)%list_elem_of_fmap (b & Hb & Hin)%list_elem_of_fmap.
    apply trend_of_word in Ha as [Ha _]. simpl in Ha.
    apply list_elem_of_bind in Hin as ([w' c'] & Hin & Hl).
    apply trend_of_word in Hin as [Hin _]. simpl in Hin.
    apply Hw. apply (list_elem_of_fmap_2 fst) in Hl. simpl in Hl.
    by replace w with w' by congruence.
Qed.

(** Among the alerts of a list of items with distinct tokens, those about
    one item's token are what the loop body appends for that item. *)
Lemma filter_bind_trend_of previous (l : list (string * Z)) w c :
  NoDup l.*1 → (w, c) ∈ l →
  filter (λ a, alert_word a = w) (l ≫= λ item, trend_of previous item.1 item.2)
  = trend_of previous w c.
Proof.
  assert (∀ (l' : list (string * Z)), w ∉ l'.*1 →
    filter (λ a, alert_word a = w)
      (l' ≫= λ item, trend_of previous item.1 item.2) = []) as Hother.
  { intros l' Hw. induction l' as [|[w' c'] l' IH]; [done|].
    rewrite fmap_cons in Hw. apply not_elem_of_cons in Hw as [Hne Hw].
    simpl in Hne. rewrite bind_cons, filter_app, IH, app_nil_r by done. simpl.
    destruct (trend_of_cases previous w' c') as [->|(kind & change & ->)]; [done|].
    by rewrite filter_cons_False by (simpl; congruence). }
  induction l as [|[w' c'] l IH]; intros Hnd Hin; [by apply elem_of_nil in Hin|].
  rewrite fmap_cons in Hnd. apply NoDup_cons in Hnd as [Hw' Hnd].
  rewrite bind_cons, filter_app. simpl in *.
  apply elem_of_cons in Hin as [[= <- <-]|Hin].
  - rewrite Hother, app_nil_r by done.
    destruct (trend_of_cases previous w c) as [->|(kind & change & ->)]; [done|].
    by rewrite filter_cons_True.
  - rewrite IH by done.
    assert (w' ≠ w) as Hne
      by (intros ->; apply Hw'; by apply (list_elem_of_fmap_2 fst) in Hin).
    destruct (trend_of_cases previous w' c') as [->|(kind & change & ->)]; [done|].
    by rewrite filter_cons_False by (simpl; congruence).
Qed.

Lemma length_Counter_distinct words : length (Counter words) = distinct words.
Proof.
  unfold distinct.
  rewrite <- (length_fmap fst), <- (size_list_to_set (C:=gset string))
    by apply NoDup_Counter.
  f_equal. apply set_eq. intros k.
  by rewrite !elem_of_list_to_set, elem_of_Counter_keys.
Qed.
End classifier_facts.

(** ** Properties of aggregation and classification *)

Lemma trend_of_new (previous : gmap string Z) (w : string) (c : Z) :
  2 <= c → default 0 (previous !! w) = 0 → 3 <= c →
  trend_of previous w c = [Alert w c New 0%Q].
Proof.
  intros H2 Hp H3. unfold trend_of. rewrite Hp.
  rewrite decide_True by done. by rewrite decide_True by done.
Qed.

Lemma trend_of_spike (previous : gmap string Z) (w : string) (c : Z) :
  2 <= c → 0 < default 0 (previous !! w) →
  (50 <= change_percent c (default 0%Z (previous !! w)))%Q →
  trend_of previous w c = [Alert w c Spike (change_percent c (default 0 (previous !! w)))].
Proof.
  intros H2 Hp Hc. unfold trend_of.
  rewrite decide_True by done. rewrite decide_False by lia.
  rewrite decide_True by done. apply Qle_bool_iff in Hc. by rewrite Hc.
Qed.

Lemma trend_of_below (previous : gmap string Z) (w : string) (c : Z) :
  2 <= c →
  (default 0 (previous !! w) = 0 ∧ c < 3)
  ∨ (0 < default 0 (previous !! w)
     ∧ (change_percent c (default 0%Z (previous !! w)) < 50)%Q) →
  trend_of previous w c = [].
Proof.
  intros H2 Hcase. unfold trend_of. rewrite decide_True by done.
  destruct Hcase as [[Hp H3]|[Hp Hc]].
  - rewrite Hp. rewrite decide_False by lia. by rewrite decide_False by lia.
  - rewrite decide_False by lia. rewrite decide_True by done.
    destruct (Qle_bool _ _) eqn:E; [|done].
    apply Qle_bool_iff in E. by apply Qlt_not_le in Hc.
Qed.

Lemma NoDup_fmap_elem_eq {A B} (f : A → B) (l : list A) (a b : A) :
  NoDup (f <$> l) → a ∈ l → b ∈ l → f a = f b → a = b.
Proof.
  induction l as [|x l IH]; [by intros _ ?%elem_of_nil|].
  rewrite fmap_cons. intros [Hx Hnd]%NoDup_cons Ha Hb Hf.
  apply elem_of_cons in Ha as [->|Ha]; apply elem_of_cons in Hb as [->|Hb]; [done| | |by apply IH].
  - exfalso. apply Hx. rewrite Hf. by apply list_elem_of_fmap_2.
  - exfalso. apply Hx. rewrite <- Hf. by apply list_elem_of_fmap_2.
Qed.

(** C7. For every token sequence, the counts of the frequency table built
    from it ([Counter], in [detect_trends] and in [save_data]) add up to the
    length of the sequence. *)
Theorem counts_sum_to_length (words : list string) :
  sum_counts (Counter words) = Z.of_nat (length words).
Proof. apply sum_counts_Counter. Qed.

(** C9. [detect_trends] on an empty token sequence returns no alert and
    leaves the whole state, and so the retained [previous_trends], as it
    was: no replacement by an empty table takes place. *)
Theorem detect_trends_empty_keeps_state (st : state) :
  detect_trends [] st = (Ok [], st)
  ∧ previous_trends (detect_trends [] st).2 = previous_trends st.
Proof. by rewrite detect_trends_nil. Qed.

(** C3. For each item (token, count) among the thirty first items of the
    ranking whose count is at least 2, the alerts [detect_trends] returns
    about that token are: exactly one New alert with change 0 when the
    previous count is 0 and the count at least 3; exactly one Spike alert
    carrying the change percentage when the previous count is positive and
    the percentage at least 50; none in the other cases. The count is the
    number of occurrences of the token. *)
Theorem detect_trends_alert_cases (st : state) (words : list string)
    (w : string) (c : Z) :
  (w, c) ∈ most_common 30 (Counter words) →
  2 <= c →
  ∃ alerts,
    (detect_trends words st).1 = Ok alerts
    ∧ c = occurrences w words
    ∧ let previous_count := default 0 (previous_trends st !! w) in
      let emitted := filter (λ a, alert_word a = w) alerts in
      (previous_count = 0 → 3 <= c → emitted = [Alert w c New 0%Q])
      ∧ (0 < previous_count → (50 <= change_percent c previous_count)%Q →
         emitted = [Alert w c Spike (change_percent c previous_count)])
      ∧ (previous_count = 0 → c < 3 → emitted = [])
      ∧ (0 < previous_count → (change_percent c previous_count < 50)%Q →
         emitted = []).
Proof.
  intros Hin H2.
  assert (words ≠ []) as Hne by (intros ->; by apply elem_of_nil in Hin).
  exists (alerts_of (previous_trends st) words).
  rewrite detect_trends_nonempty by done. split; [done|]. split.
  { apply elem_of_most_common in Hin. by apply elem_of_Counter in Hin as [_ ?]. }
  intros previous_count emitted. subst emitted. unfold alerts_of.
  rewrite (filter_bind_trend_of _ _ w c)
    by (try apply NoDup_most_common, NoDup_Counter; done).
  subst previous_count. repeat split.
  - intros. by apply trend_of_new.
  - intros. by apply trend_of_spike.
  - intros. apply trend_of_below; [done|by left].
  - intros. apply trend_of_below; [done|by right].
Qed.

(** The cases at work: sixteen [rocket] after ten in the previous cycle
    give one Spike alert about [rocket]. *)
Lemma detect_trends_alert_cases_witness :
  ("rocket", 16) ∈ most_common 30 (Counter rocket_words)
  ∧ 2 <= 16
  ∧ ∃ alerts,
      (detect_trends rocket_words rocket_state).1 = Ok alerts
      ∧ filter (λ a, alert_word a = "rocket") alerts
        = [Alert "rocket" 16 Spike (change_percent 16 10)].
Proof.
  assert (("rocket", 16) ∈ most_common 30 (Counter rocket_words)) as Hin
    by (vm_compute; left).
  assert (2 <= 16) as H2 by lia.
  split; [exact Hin|]. split; [exact H2|].
  destruct (detect_trends_alert_cases rocket_state rocket_words "rocket" 16 Hin H2)
    as (alerts & Hret & _ & _ & Hspike & _).
  exists alerts. split; [exact Hret|].
  apply Hspike; [reflexivity|vm_compute; discriminate].
Defined.

(** C10. [detect_trends] returns at most thirty alerts, at most one per
    token: two returned alerts about the same token are the same alert, so
    no token has both a New and a Spike alert. *)
Theorem detect_trends_alerts_bounded (st : state) (words : list string) :
  ∃ alerts,
    (detect_trends words st).1 = Ok alerts
    ∧ (length alerts ≤ 30)%nat
    ∧ NoDup (alert_word <$> alerts)
    ∧ (∀ a b, a ∈ alerts → b ∈ alerts → alert_word a = alert_word b → a = b)
    ∧ ¬ (∃ a b, a ∈ alerts ∧ b ∈ alerts ∧ alert_word a = alert_word b
                ∧ alert_kind a = New ∧ alert_kind b = Spike).
Proof.
  destruct words as [|w0 words].
  - exists []. split; [done|]. split; [simpl; lia|]. split; [constructor|]. split.
    + by intros a b ?%elem_of_nil.
    + by intros (a & b & ?%elem_of_nil & _).
  - exists (alerts_of (previous_trends st) (w0 :: words)).
    rewrite detect_trends_nonempty by done.
    assert (NoDup (alert_word <$> alerts_of (previous_trends st) (w0 :: words))) as Hnd
      by apply NoDup_bind_trend_of, NoDup_most_common, NoDup_Counter.
    repeat split; [| done | |].
    + unfold alerts_of. etrans; [apply length_bind_trend_of|].
      rewrite length_most_common. lia.
    + intros a b. by apply NoDup_fmap_elem_eq.
    + intros (a & b & Ha & Hb & Hw & Hka & Hkb).
      assert (a = b) as -> by by eapply NoDup_fmap_elem_eq.
      congruence.
Qed.

Lemma save_data_cases (w : world) (words : list string) (trends : list alert)
    (st : state) :
  save_data w words trends st =
    if db_writable w then
      (Ok tt,
       {| previous_trends := previous_trends st;
          db := {| trends_table := trends_table (db st) ++
                     ((λ item, TrendRow item.1 item.2 "reddit" (now w)) <$> Counter words);
                   alerts_table := alerts_table (db st) ++
                     ((λ trend, AlertRow (alert_word trend) (alert_count trend)
                                  (alert_change trend) (alert_kind trend) (now w))
                        <$> trends) |};
          log := log st ++ [Info_saved (length (Counter words)) (length trends)] |})
    else (Raise SqliteError, st).
Proof. unfold save_data. by destruct (db_writable w). Qed.


(** C4. After [detect_trends] on a non-empty token sequence the retained
    state has at most 100 entries; when the sequence has at least 100
    distinct tokens it has exactly 100, each an entry of the frequency
    table, and every one of them ranks before every entry of the table that
    is not retained: a larger count, or the same count and an earlier first
    occurrence. *)
Theorem retained_state_top_100 (st : state) (words : list string) :
  words ≠ [] →
  let retained := previous_trends (detect_trends words st).2 in
  (size retained ≤ 100)%nat
  ∧ ((100 ≤ distinct words)%nat →
     size retained = 100%nat
     ∧ (∀ w c, retained !! w = Some c → (w, c) ∈ Counter words)
     ∧ (∀ w c w' c',
          retained !! w = Some c →
          (w', c') ∈ Counter words →
          retained !! w' = None →
          outranks words (w, c) (w', c'))).
Proof.
  intros Hne retained. subst retained.
  rewrite detect_trends_nonempty by done. simpl.
  pose proof (NoDup_most_common 100 _ (NoDup_Counter words)) as Hnd.
  rewrite size_dict, length_most_common, length_Counter_distinct by done.
  split; [lia|]. intros Hdistinct. split; [lia|]. split.
  - intros w c Hw. apply lookup_dict in Hw; [|done].
    by apply elem_of_most_common in Hw.
  - intros w c w' c' Hw Hin Hw'.
    apply lookup_dict in Hw; [|done]. apply lookup_dict_None in Hw'; [|done].
    apply (take_sorted_desc_top snd
             (λ a b, (first_index a.1 words < first_index b.1 words)%nat)
             100 (Counter words) (w, c) (w', c'));
      [apply Counter_first_occurrence|exact Hw|].
    apply (elem_of_sorted_desc snd) in Hin.
    rewrite <- (take_drop 100 (sorted_desc snd (Counter words))) in Hin.
    apply elem_of_app in Hin as [Hin|Hin]; [|done].
    exfalso. apply Hw'. by apply (list_elem_of_fmap_2 fst) in Hin.
Qed.

(** ** The tokenizer *)
Section tokenizer_facts.
Import Re.
Implicit Types (p : pattern) (s m : list ascii) (c : ascii).

Lemma take_while_prefix (f : ascii → bool) s : take_while f s `prefix_of` s.
Proof.
  induction s as [|c s IH]; simpl; [done|].
  destruct (f c); [by apply prefix_cons|apply prefix_nil].
Qed.

Lemma Forall_take_while (f : ascii → bool) s :
  Forall (λ c, f c = true) (take_while f s).
Proof.
  induction s as [|c s IH]; simpl; [constructor|].
  destruct (f c) eqn:E; by constructor.
Qed.


Lemma backtrack_Some n s m :
  backtrack n s = Some m → ∃ k, (3 ≤ k ≤ n)%nat ∧ m = take k s.
Proof.
  induction n as [|n IH]; simpl.
  - done.
  - destruct (S n <? 3)%nat eqn:E; [done|]. apply Nat.ltb_ge in E.
    destruct (boundary _ _).
    + intros [= <-]. exists (S n). split; [lia|done].
    + intros (k & Hk & ->)%IH. exists k. split; [lia|done].
Qed.

(** A match of the word pattern is a run of at least three letters, taken
    from the front of the text. *)
Lemma word_re_Some prev s m :
  word_re prev s = Some m →
  Forall (λ c, is_alpha c = true) m ∧ (3 ≤ length m)%nat ∧ m `prefix_of` s.
Proof.
  unfold word_re. destruct (boundary prev (head s)); [|done].
  intros (k & Hk & ->)%backtrack_Some.
  destruct (take_while_prefix is_alpha s) as [rest Hs].
  pose proof (Forall_take_while is_alpha s) as Halpha.
  assert (take k s = take k (take_while is_alpha s)) as Htake.
  { rewrite Hs at 1. by rewrite take_app_le by lia. }
  split; [|split].
  - rewrite Htake. by apply Forall_take.
  - rewrite Htake, length_take. lia.
  - apply prefix_take.
Qed.

(** What holds of every match of a pattern holds of all that [findall]
    returns. *)
Lemma Forall_findall_from p (P : ascii → Prop) (Q : list ascii → Prop) :
  (∀ prev s m, Forall P s → p prev s = Some m → Q m) →
  ∀ s skip prev, Forall P s → Forall Q (findall_from p skip prev s).
Proof.
  intros Hp s. induction s as [|c s IH]; intros skip prev Hs; simpl; [constructor|].
  pose proof (Forall_inv_tail Hs) as Hs'.
  destruct skip as [|k]; [|by apply IH].
  destruct (p prev (c :: s)) as [m|] eqn:E; [|by apply IH].
  constructor; [exact (Hp _ _ _ Hs E)|by apply IH].
Qed.

(** [sub] only removes characters. *)
Lemma Forall_sub_from p (P : ascii → Prop) s skip prev :
  Forall P s → Forall P (sub_from p skip prev s).
Proof.
  revert skip prev. induction s as [|c s IH]; intros skip prev Hs; simpl; [constructor|].
  apply Forall_cons in Hs as [Hc Hs].
  destruct skip as [|k]; [|by apply IH].
  destruct (p prev (c :: s)); [by apply IH|].
  constructor; [done|by apply IH].
Qed.

Lemma lower_ascii_not_upper c : is_upper (lower_ascii c) = false.
Proof.
  destruct c as [[] [] [] [] [] [] [] []]; vm_compute; reflexivity.
Qed.

(** A lowered text has no capital letter. *)
Lemma lower_no_upper s : Forall (λ c, is_upper c = false) (lower s).
Proof.
  unfold lower. apply Forall_fmap, Forall_forall. intros c _.
  apply lower_ascii_not_upper.
Qed.



End tokenizer_facts.


(** ** One cycle *)
Section cycle_facts.
Implicit Types (w : world) (st : state).

Lemma logger_logged (e : log_entry) st : logger e st = (Ok tt, logged st [e]).
Proof. done. Qed.

Lemma logged_logged st (l1 l2 : list log_entry) :
  logged (logged st l1) l2 = logged st (l1 ++ l2).
Proof. unfold logged. simpl. by rewrite app_assoc. Qed.

(** The loop body of [scrape_reddit] for one source. *)
Lemma scrape_body w (all_words : list string) (subreddit : string) st :
  (response <- lift (requests_get w (url_of subreddit)) ;;
   if decide (status_code response = 200) then
     match json response with
     | Some children =>
         ret (foldl (λ all_words post,
                all_words ++ clean_text (Some (title post +:+ " " +:+ selftext post)))
              all_words children)
     | None => raise PayloadError
     end
   else ret all_words)%monitor st
  = match contribution (requests_get w (url_of subreddit)) with
    | Ok ws => (Ok (all_words ++ ws), st)
    | Raise e => (Raise e, st)
    end.
Proof.
  unfold bind, lift, contribution.
  destruct (requests_get w (url_of subreddit)) as [r|e]; [|done].
  case_decide; [|by rewrite app_nil_r].
  destruct (json r) as [children|]; [|done].
  unfold ret, tokens_of_posts. by rewrite foldl_append.
Qed.

(** [scrape_reddit] never raises and touches only the log. *)
Lemma scrape_reddit_scraped w st :
  scrape_reddit w st = (Ok (scraped w).1, logged st [(scraped w).2]).
Proof.
  unfold scrape_reddit, try_except, scraped, fetched_all, fetched_popular.
  change (take 2 subreddits) with ["all"; "popular"].
  unfold for_each. unfold bind at 1 2.
  rewrite scrape_body.
  destruct (contribution (requests_get w (url_of "all"))) as [a|e]; [|done].
  unfold bind at 1. rewrite scrape_body.
  destruct (contribution (requests_get w (url_of "popular"))) as [b|e]; [|done].
  done.
Qed.

Lemma print_trends_printed (trends : list alert) st :
  print_trends trends st = (Ok tt, logged st [printed trends]).
Proof. by destruct trends. Qed.

(** What one cycle does, by cases on the tokens scraped and on whether the
    database can be written. *)
Lemma run_cycle_cases w st :
  run_cycle w st =
    let words := (scraped w).1 in
    let trends := alerts_of (previous_trends st) words in
    let retained := dict (most_common 100 (Counter words)) in
    match words with
    | [] =>
        (Ok tt, logged st [Info_cycle_start; (scraped w).2; Warning_no_words])
    | _ =>
        if db_writable w then
          (Ok tt,
           {| previous_trends := retained;
              db := saved w words trends (db st);
              log := log st ++
                [Info_cycle_start; (scraped w).2;
                 Info_saved (length (Counter words)) (length trends);
                 printed trends;
                 Info_cycle_complete (length words) (length trends)] |})
        else
          (Raise SqliteError,
           {| previous_trends := retained;
              db := db st;
              log := log st ++ [Info_cycle_start; (scraped w).2] |})
    end.
Proof.
  unfold run_cycle. unfold bind at 1. rewrite logger_logged.
  unfold bind at 1. rewrite scrape_reddit_scraped, logged_logged. simpl app.
  cbv zeta. destruct (scraped w).1 as [|w0 words] eqn:E.
  { rewrite logger_logged, logged_logged. done. }
  unfold bind at 1. rewrite detect_trends_nonempty by done.
  unfold bind at 1. rewrite save_data_cases.
  destruct (db_writable w); [|done].
  unfold bind at 1. rewrite print_trends_printed, logger_logged.
  unfold logged, saved. simpl. by rewrite <- !app_assoc.
Qed.
End cycle_facts.

Lemma run_forever_step_state (w : world) (st : state) :
  (run_forever_step w st).1 = Ok tt
  ∧ previous_trends (run_forever_step w st).2 = previous_trends (run_cycle w st).2
  ∧ db (run_forever_step w st).2 = db (run_cycle w st).2.
Proof.
  unfold run_forever_step, try_except, bind.
  by destruct (run_cycle w st) as [[[]|e] st'].
Qed.

(** C1, as stated, fails. In a cycle that scrapes six times the token
    [rocket] and whose persistence step raises, the retained mapping, empty
    before the cycle, holds [rocket] with count 6 after it: it is not what
    it was before the cycle, and the new state has been committed although
    persistence did not succeed. *)
Lemma persistence_failure_state_replaced :
  db_writable world_db_down = false
  ∧ (run_cycle world_db_down fresh_state).1 = Raise SqliteError
  ∧ db (run_cycle world_db_down fresh_state).2 = db fresh_state
  ∧ previous_trends fresh_state !! "rocket" = None
  ∧ previous_trends (run_cycle world_db_down fresh_state).2 !! "rocket" = Some 6
  ∧ ¬ (∀ (w : world) (st : state),
         db_writable w = false →
         previous_trends (run_cycle w st).2 = previous_trends st).
Proof.
  assert (previous_trends (run_cycle world_db_down fresh_state).2 !! "rocket" = Some 6)
    as Hafter by (vm_compute; reflexivity).
  split; [reflexivity|]. split; [vm_compute; reflexivity|].
  split; [vm_compute; reflexivity|]. split; [vm_compute; reflexivity|].
  split; [exact Hafter|].
  intros H. specialize (H world_db_down fresh_state eq_refl).
  rewrite H in Hafter. vm_compute in Hafter. discriminate Hafter.
Qed.

(** C1, amended. [detect_trends] replaces the retained mapping itself,
    before persistence is attempted: after a cycle that scraped at least one
    token the retained mapping is the top 100 of that cycle's table, whether
    [save_data] succeeds or raises; when it raises the cycle ends with the
    exception and the database is as before, and the loop of [run_forever]
    goes on with the replaced mapping. *)
Theorem state_replaced_before_persistence (w : world) (st : state) :
  (scraped w).1 ≠ [] →
  let words := (scraped w).1 in
  let retained := dict (most_common 100 (Counter words)) in
  previous_trends (run_cycle w st).2 = retained
  ∧ (run_cycle w st).1 = (if db_writable w then Ok tt else Raise SqliteError)
  ∧ db (run_cycle w st).2 =
      (if db_writable w
       then saved w words (alerts_of (previous_trends st) words) (db st)
       else db st)
  ∧ previous_trends (run_forever_step w st).2 = retained.
Proof.
  intros Hne words retained. subst words retained.
  destruct (run_forever_step_state w st) as (_ & -> & _).
  rewrite run_cycle_cases. cbv zeta.
  destruct (scraped w).1 as [|w0 words]; [done|].
  by destruct (db_writable w).
Qed.

(** The replacement at work, on the cycle whose persistence step raises. *)
Lemma state_replaced_before_persistence_witness :
  (scraped world_db_down).1 ≠ []
  ∧ previous_trends (run_cycle world_db_down fresh_state).2
    = dict (most_common 100 (Counter (scraped world_db_down).1))
  ∧ (run_cycle world_db_down fresh_state).1 = Raise SqliteError
  ∧ db (run_cycle world_db_down fresh_state).2 = db fresh_state.
Proof.
  assert ((scraped world_db_down).1 ≠ []) as Hne by (vm_compute; discriminate).
  split; [exact Hne|].
  destruct (state_replaced_before_persistence world_db_down fresh_state Hne)
    as (H1 & H2 & H3 & _).
  split; [exact H1|]. split; [exact H2|exact H3].
Defined.

(** C2, as stated, fails. When the fetch of the first source raises and the
    second source answers with three tokens, [scrape_reddit] does not go on
    with the tokens of the second source, the failed one counting for none:
    it returns no token at all, and the cycle is skipped although one of the
    two sources answered (nothing is persisted, with a database that could
    be written). *)
Lemma fetch_failure_discards_other_sources :
  fetched_all world_first_fetch_fails = Raise RequestException
  ∧ fetched_popular world_first_fetch_fails = Ok ["rocket"; "rocket"; "rocket"]
  ∧ (scrape_reddit world_first_fetch_fails fresh_state).1 = Ok []
  ∧ run_cycle world_first_fetch_fails fresh_state
    = (Ok tt, logged fresh_state
                [Info_cycle_start; Error_scraping RequestException; Warning_no_words])
  ∧ ¬ (∀ (w : world) (st : state),
         (scrape_reddit w st).1
         = Ok (or_nothing (fetched_all w) ++ or_nothing (fetched_popular w))).
Proof.
  split; [vm_compute; reflexivity|]. split; [vm_compute; reflexivity|].
  split; [vm_compute; reflexivity|]. split; [vm_compute; reflexivity|].
  intros H. specialize (H world_first_fetch_fails fresh_state).
  vm_compute in H. discriminate H.
Qed.

(** C2, amended. A source that answers with a status other than 200
    contributes no token and the loop goes on with the next source, nothing
    being logged for it. A fetch that raises, or a payload that cannot be
    read, is logged and ends [scrape_reddit] with no token at all, whatever
    the other source returned. Whenever [scrape_reddit] returns no token the
    cycle is skipped with a warning: the retained mapping and the database
    are as before. *)
Theorem fetch_failure_and_skipped_cycle (w : world) (st : state) :
  (∀ r, status_code r ≠ 200 → contribution (Ok r) = Ok [])
  ∧ scrape_reddit w st =
      match fetched_all w, fetched_popular w with
      | Ok a, Ok b => (Ok (a ++ b), logged st [Info_scraped (length (a ++ b))])
      | Raise e, _ | Ok _, Raise e => (Ok [], logged st [Error_scraping e])
      end
  ∧ ((scrape_reddit w st).1 = Ok [] →
     run_cycle w st
       = (Ok tt, logged st [Info_cycle_start; (scraped w).2; Warning_no_words])
     ∧ previous_trends (run_cycle w st).2 = previous_trends st
     ∧ db (run_cycle w st).2 = db st).
Proof.
  split; [|split].
  - intros r Hr. unfold contribution. by rewrite decide_False.
  - rewrite scrape_reddit_scraped. unfold scraped.
    destruct (fetched_all w) as [a|e]; [|done].
    by destruct (fetched_popular w) as [b|e].
  - rewrite scrape_reddit_scraped. simpl. intros [= Hnil].
    rewrite run_cycle_cases. cbv zeta. by rewrite Hnil.
Qed.

(** Both kinds of failure at work: a 503 answer from the first source leaves
    the tokens of the second; an exception from the first source leaves
    none, and the cycle is skipped. *)
Lemma fetch_failure_and_skipped_cycle_witness :
  (scrape_reddit world_first_unavailable fresh_state).1
    = Ok ["rocket"; "rocket"; "rocket"]
  ∧ (scrape_reddit world_first_fetch_fails fresh_state).1 = Ok []
  ∧ previous_trends (run_cycle world_first_fetch_fails fresh_state).2
    = previous_trends fresh_state
  ∧ db (run_cycle world_first_fetch_fails fresh_state).2 = db fresh_state.
Proof.
  destruct (fetch_failure_and_skipped_cycle world_first_unavailable fresh_state)
    as (_ & Hscrape & _).
  destruct (fetch_failure_and_skipped_cycle world_first_fetch_fails fresh_state)
    as (_ & _ & Hskip).
  assert ((scrape_reddit world_first_fetch_fails fresh_state).1 = Ok []) as Hnone
    by (vm_compute; reflexivity).
  split; [|split; [exact Hnone|exact (proj2 (Hskip Hnone))]].
  rewrite Hscrape. vm_compute. reflexivity.
Defined.

(** ** The dashboard query *)
Section query_facts.
Import CloudDatabase.
Implicit Types (r : trend_row) (rows : list trend_row)
  (groups : list (string * Z * string)).

Lemma group_by_snoc rows r :
  group_by_word_source (rows ++ [r]) = add_to_group r (group_by_word_source rows).
Proof. unfold group_by_word_source. by rewrite foldl_snoc. Qed.

Lemma add_to_group_fresh r groups :
  (trend_word r, trend_source r) ∉ group_key <$> groups →
  add_to_group r groups = groups ++ [(trend_word r, trend_count r, trend_source r)].
Proof.
  induction groups as [|[[word total] source] groups IH]; simpl; intros Hk; [done|].
  apply not_elem_of_cons in Hk as [Hne Hk]. unfold group_key in Hne. simpl in Hne.
  rewrite decide_False by (intros [-> ->]; done). by rewrite IH.
Qed.








End query_facts.

(** The bound at work: of 120 distinct tokens, 100 are retained. *)
Lemma retained_state_top_100_witness :
  many_words ≠ []
  ∧ (100 ≤ distinct many_words)%nat
  ∧ size (previous_trends (detect_trends many_words fresh_state).2) = 100%nat.
Proof.
  assert (many_words ≠ []) as Hne by (vm_compute; discriminate).
  assert (100 ≤ distinct many_words)%nat as Hmany by (vm_compute; lia).
  split; [exact Hne|]. split; [exact Hmany|].
  destruct (retained_state_top_100 fresh_state many_words Hne) as [_ Htop].
  by destruct (Htop Hmany) as [Hsize _].
Defined.

Lemma StronglySorted_trivial {A} (l : list A) : StronglySorted (λ _ _, True) l.
Proof. induction l; constructor; [done|by apply Forall_forall]. Qed.

Lemma get_recent_trends_cases (d : database) (now : Z) (hours : Q) :
  CloudDatabase.get_recent_trends d now hours =
    match CloudDatabase.cutoff_of now hours with
    | Ok cutoff => Ok (CloudDatabase.select_recent d cutoff)
    | Raise e => Raise e
    end.
Proof. done. Qed.



(** * Further properties *)

(** ** The tokenizer, continued *)
Section tokenizer_more.
Import Re.
Implicit Types (s m : list ascii) (c : ascii).

Lemma lower_ascii_idempotent c : lower_ascii (lower_ascii c) = lower_ascii c.
Proof. destruct c as [[] [] [] [] [] [] [] []]; vm_compute; reflexivity. Qed.

Lemma lower_idempotent s : lower (lower s) = lower s.
Proof.
  unfold lower. rewrite <- list_fmap_compose. apply list_fmap_ext.
  intros i c _. apply lower_ascii_idempotent.
Qed.

Lemma lit_then_run_prefix c (f : ascii → bool) s m :
  lit_then_run c f s = Some m → m `prefix_of` s.
Proof.
  unfold lit_then_run. destruct s as [|c' rest]; [done|].
  case_decide as Hc; [subst c'|done].
  pose proof (take_while_prefix f rest) as Hpre.
  destruct (take_while f rest) as [|x run]; [done|].
  intros [= <-]. by apply prefix_cons.
Qed.

(** The tokens are pieces of the text [findall] is run on. *)
Lemma hashtags_of_chars (P : ascii → Prop) s :
  Forall P s → Forall (λ w, Forall P (list_ascii_of_string w)) (hashtags_of s).
Proof.
  intros Hs. unfold hashtags_of. apply Forall_fmap.
  apply (Forall_findall_from hashtag_re P); [|done].
  intros prev s' m Hs' [rest ->]%lit_then_run_prefix. simpl.
  rewrite list_ascii_of_string_of_list_ascii. by apply Forall_app in Hs' as [? _].
Qed.

Lemma words_of_chars (P : ascii → Prop) s :
  Forall P s → Forall (λ w, Forall P (list_ascii_of_string w)) (words_of s).
Proof.
  intros Hs. unfold words_of. apply Forall_fmap.
  apply (Forall_findall_from word_re P); [|done].
  intros prev s' m Hs' (_ & _ & [rest ->])%word_re_Some. simpl.
  rewrite list_ascii_of_string_of_list_ascii. by apply Forall_app in Hs' as [? _].
Qed.

Lemma clean_text_lowered (t : string) :
  clean_text (Some t) =
    let text := lower (list_ascii_of_string t) in
    hashtags_of text
    ++ filter (λ w, (w ∉ stopwords) ∧ (4 ≤ String.length w)%nat)
         (words_of (sub strip_re text)).
Proof. by destruct t. Qed.
End tokenizer_more.

(** X1. [clean_text] does not see the case of letters: a text and its
    lowercase version give the same tokens, and no token has a capital
    letter (hashtags included). *)
Theorem clean_text_ignores_case (t : string) :
  clean_text (Some (lower_string t)) = clean_text (Some t)
  ∧ Forall no_capital (clean_text (Some t)).
Proof.
  split.
  - rewrite !clean_text_lowered. unfold lower_string. cbv zeta.
    by rewrite list_ascii_of_string_of_list_ascii, lower_idempotent.
  - rewrite clean_text_lowered. cbv zeta.
    pose proof (lower_no_upper (list_ascii_of_string t)) as Hlow.
    apply Forall_app. split.
    + by apply hashtags_of_chars.
    + apply Forall_forall. intros w [_ Hw]%list_elem_of_filter. revert w Hw.
      apply Forall_forall, words_of_chars. by apply Forall_sub_from.
Qed.

(** ** Fetching, continued *)

(** X2. [scrape_reddit] never raises, whatever the sources do; it leaves
    the retained mapping and the database as they are and logs one line:
    the number of tokens it returns, or the error, and then it returns no
    token. *)
Theorem scrape_reddit_never_raises (w : world) (st : state) :
  ∃ words entry,
    scrape_reddit w st = (Ok words, logged st [entry])
    ∧ previous_trends (scrape_reddit w st).2 = previous_trends st
    ∧ db (scrape_reddit w st).2 = db st
    ∧ (entry = Info_scraped (length words)
       ∨ ∃ e, entry = Error_scraping e ∧ words = []).
Proof.
  exists (scraped w).1, (scraped w).2. rewrite scrape_reddit_scraped.
  split; [done|]. split; [done|]. split; [done|]. unfold scraped.
  destruct (fetched_all w) as [a|e]; [|right; by exists e].
  destruct (fetched_popular w) as [b|e]; [by left|right; by exists e].
Qed.

(** X3. Of the five subreddits listed, only [all] and [popular] are
    fetched: two worlds that answer alike for these two give the same
    tokens and the same log line, whatever they answer for the others. *)
Theorem scrape_reddit_two_sources (w1 w2 : world) (st : state) :
  requests_get w1 (url_of "all") = requests_get w2 (url_of "all") →
  requests_get w1 (url_of "popular") = requests_get w2 (url_of "popular") →
  scrape_reddit w1 st = scrape_reddit w2 st.
Proof.
  intros Hall Hpop. rewrite !scrape_reddit_scraped.
  unfold scraped, fetched_all, fetched_popular. by rewrite Hall, Hpop.
Qed.

(** The two worlds differ on [worldnews], [technology] and [science], on the
    clock and on the database. *)
Lemma scrape_reddit_two_sources_witness :
  requests_get world_first_unavailable (url_of "all")
    = requests_get world_other_subreddits (url_of "all")
  ∧ requests_get world_first_unavailable (url_of "popular")
    = requests_get world_other_subreddits (url_of "popular")
  ∧ requests_get world_first_unavailable (url_of "worldnews")
    ≠ requests_get world_other_subreddits (url_of "worldnews")
  ∧ scrape_reddit world_first_unavailable fresh_state
    = scrape_reddit world_other_subreddits fresh_state.
Proof.
  assert (requests_get world_first_unavailable (url_of "all")
          = requests_get world_other_subreddits (url_of "all")) as Hall
    by (vm_compute; reflexivity).
  assert (requests_get world_first_unavailable (url_of "popular")
          = requests_get world_other_subreddits (url_of "popular")) as Hpop
    by (vm_compute; reflexivity).
  split; [exact Hall|]. split; [exact Hpop|]. split; [vm_compute; discriminate|].
  exact (scrape_reddit_two_sources _ _ fresh_state Hall Hpop).
Defined.

(** ** Classification, continued *)
Section classifier_more.
Implicit Types (w : string) (c p : Z) (st : state) (words : list string).

(** The threshold of 50 percent in whole numbers: the count is at least one
    and a half times the previous count. *)
Lemma change_percent_ge_50 c p :
  0 < p → (50 <= change_percent c p)%Q ↔ 3 * p <= 2 * c.
Proof.
  intros Hp. destruct p as [|p|p]; [lia| |lia].
  unfold change_percent, Qle, Qmult, Qdiv, Qinv, inject_Z. simpl. lia.
Qed.

Lemma elem_of_trend_of (previous : gmap string Z) w c (a : alert) :
  a ∈ trend_of previous w c →
  let previous_count := default 0 (previous !! w) in
  2 <= c
  ∧ ((a = Alert w c New 0%Q ∧ previous_count = 0 ∧ 3 <= c)
     ∨ (a = Alert w c Spike (change_percent c previous_count)
        ∧ 0 < previous_count ∧ 3 * previous_count <= 2 * c)).
Proof.
  intros Ha. cbv zeta. unfold trend_of in Ha.
  set (previous_count := default 0 (previous !! w)) in *.
  case_decide as H2; [|by apply elem_of_nil in Ha]. split; [done|].
  case_decide as Hnew.
  - apply list_elem_of_singleton in Ha. left. by destruct Hnew.
  - case_decide as Hpos; [|by apply elem_of_nil in Ha].
    destruct (Qle_bool _ _) eqn:E; [|by apply elem_of_nil in Ha].
    apply list_elem_of_singleton in Ha. right. split; [done|]. split; [done|].
    apply Qle_bool_iff in E. by apply change_percent_ge_50 in E.
Qed.

Lemma trend_of_fresh w c : trend_of ∅ w c = if decide (3 <= c) then [Alert w c New 0%Q] else [].
Proof.
  unfold trend_of. rewrite lookup_empty. simpl.
  repeat case_decide; try done; lia.
Qed.

(** No alert for an item whose previous count is its count. *)
Lemma trend_of_same (previous : gmap string Z) w c :
  0 < c → previous !! w = Some c → trend_of previous w c = [].
Proof.
  intros Hc Hw. destruct (trend_of previous w c) as [|a l] eqn:E; [done|].
  assert (a ∈ trend_of previous w c) as Ha by (rewrite E; by left).
  apply elem_of_trend_of in Ha as [_ Ha]. rewrite Hw in Ha. simpl in Ha.
  destruct Ha as [(_ & ? & _)|(_ & _ & ?)]; lia.
Qed.

Lemma Counter_positive words w c : (w, c) ∈ Counter words → 0 < c.
Proof. intros [Hin ->]%elem_of_Counter. by apply occurrences_pos. Qed.

Lemma most_common_le (n m : nat) (counts : list (string * Z)) (x : string * Z) :
  (n ≤ m)%nat → x ∈ most_common n counts → x ∈ most_common m counts.
Proof.
  unfold most_common. intros Hnm (i & Hi & Hlt)%elem_of_take.
  apply elem_of_take. exists i. split; [done|lia].
Qed.

(** The alerts follow the order of the items they are about. *)
Lemma StronglySorted_bind_trend_of (R : relation (string * Z))
    (previous : gmap string Z) (l : list (string * Z)) :
  StronglySorted R l →
  StronglySorted (λ a b, R (alert_item a) (alert_item b))
    (l ≫= λ item, trend_of previous item.1 item.2).
Proof.
  induction 1 as [|[w c] l Hs IH Hx]; [constructor|].
  rewrite bind_cons. apply StronglySorted_app_2; [|..|done].
  - intros a b Ha ([w' c'] & Hb & Hin)%list_elem_of_bind.
    apply trend_of_word in Ha as [Haw Hac]. apply trend_of_word in Hb as [Hbw Hbc].
    simpl in *. unfold alert_item. rewrite Haw, Hac, Hbw, Hbc.
    rewrite Forall_forall in Hx. by apply Hx.
  - simpl. destruct (trend_of_cases previous w c) as [->|(kind & change & ->)];
      repeat constructor.
Qed.
End classifier_more.

(** X4. Every alert [detect_trends] returns is justified: it is about one
    of the thirty first items of the ranking, with that token's number of
    occurrences, at least 2; a New alert has change 0, a token whose
    previous count is 0 and a count of at least 3; a Spike alert has a
    positive previous count, a count of at least one and a half times that
    count, and the change percentage. *)
Theorem detect_trends_alerts_justified (st : state) (words : list string) :
  ∃ alerts,
    (detect_trends words st).1 = Ok alerts
    ∧ ∀ a, a ∈ alerts →
        let previous_count := default 0 (previous_trends st !! alert_word a) in
        alert_item a ∈ most_common 30 (Counter words)
        ∧ alert_count a = occurrences (alert_word a) words
        ∧ 2 <= alert_count a
        ∧ match alert_kind a with
          | New => previous_count = 0 ∧ 3 <= alert_count a ∧ alert_change a = 0%Q
          | Spike =>
              0 < previous_count
              ∧ 3 * previous_count <= 2 * alert_count a
              ∧ alert_change a = change_percent (alert_count a) previous_count
          end.
Proof.
  destruct words as [|w0 words].
  { exists []. split; [done|]. by intros a ?%elem_of_nil. }
  exists (alerts_of (previous_trends st) (w0 :: words)).
  rewrite detect_trends_nonempty by done. split; [done|].
  intros a ([w c] & Ha & Hin)%list_elem_of_bind. simpl in Ha.
  apply elem_of_trend_of in Ha as [H2 Ha]. cbv zeta.
  assert (c = occurrences w (w0 :: words)) as Hocc.
  { apply elem_of_most_common in Hin. by apply elem_of_Counter in Hin as [_ ?]. }
  destruct Ha as [(-> & Hp & H3)|(-> & Hp & H32)]; unfold alert_item; simpl;
    by repeat split.
Qed.

(** X5. The alerts [detect_trends] returns are in the order of the ranking:
    decreasing count, and first occurrence for equal counts. So the alerts
    [print_trends] shows, the ten first, have counts at least as large as
    those it leaves out. *)
Theorem alerts_in_ranking_order (st : state) (words : list string) :
  ∃ alerts,
    (detect_trends words st).1 = Ok alerts
    ∧ StronglySorted (λ a b, outranks words (alert_item a) (alert_item b)) alerts
    ∧ (∀ st', (print_trends alerts st').1 = Ok tt
              ∧ ∃ entry, (print_trends alerts st').2 = logged st' [entry]
                ∧ (alerts ≠ [] → entry = Info_trending (take 10 alerts)))
    ∧ (∀ a b, a ∈ take 10 alerts → b ∈ drop 10 alerts →
              alert_count b <= alert_count a).
Proof.
  assert (∃ alerts, (detect_trends words st).1 = Ok alerts
            ∧ StronglySorted (λ a b, outranks words (alert_item a) (alert_item b)) alerts)
    as (alerts & Hret & Hsorted).
  { destruct words as [|w0 words]; [exists []; split; [done|constructor]|].
    exists (alerts_of (previous_trends st) (w0 :: words)).
    rewrite detect_trends_nonempty by done. split; [done|].
    apply StronglySorted_bind_trend_of, most_common_outranks. }
  exists alerts. split; [done|]. split; [done|]. split.
  - intros st'. rewrite print_trends_printed. split; [done|].
    exists (printed alerts). split; [done|]. by destruct alerts.
  - intros a b Ha Hb.
    rewrite <- (take_drop 10 alerts) in Hsorted.
    pose proof (StronglySorted_app_1_elem_of _ _ _ _ _ Hsorted Ha Hb) as Hab.
    unfold outranks, alert_item in Hab. simpl in Hab. lia.
Qed.

(** X6. A monitor just constructed has an empty retained mapping
    ([__init__]); its first classification returns New alerts only: one for
    each of the thirty first items of the ranking whose count is at least
    3, in the order of the ranking. *)
Theorem first_cycle_new_alerts_only (st : state) (words : list string) :
  previous_trends st = ∅ →
  (detect_trends words st).1 =
    Ok ((λ item, Alert item.1 item.2 New 0%Q)
          <$> filter (λ item, 3 <= item.2) (most_common 30 (Counter words))).
Proof.
  intros Hempty. destruct words as [|w0 words]; [done|].
  rewrite detect_trends_nonempty by done. simpl. f_equal.
  unfold alerts_of. rewrite Hempty.
  induction (most_common 30 (Counter (w0 :: words))) as [|[w c] l IH]; [done|].
  rewrite bind_cons, IH, filter_cons. simpl. rewrite trend_of_fresh.
  by case_decide.
Qed.

(** On a monitor just constructed, sixteen [rocket] and three [alpha]. *)
Lemma first_cycle_new_alerts_only_witness :
  previous_trends fresh_state = ∅
  ∧ (detect_trends rocket_words fresh_state).1
    = Ok [Alert "rocket" 16 New 0%Q; Alert "alpha" 3 New 0%Q].
Proof.
  assert (previous_trends fresh_state = ∅) as Hempty by reflexivity.
  split; [exact Hempty|].
  rewrite (first_cycle_new_alerts_only fresh_state rocket_words Hempty).
  vm_compute. reflexivity.
Defined.

(** X7. Classifying the same token sequence twice in a row returns no alert
    the second time and leaves the state as the first classification left
    it. *)
Theorem detect_trends_twice_no_alert (st : state) (words : list string) :
  let st1 := (detect_trends words st).2 in
  detect_trends words st1 = (Ok [], st1).
Proof.
  intros st1. subst st1. destruct words as [|w0 words]; [done|].
  rewrite !detect_trends_nonempty by done. simpl. f_equal. f_equal.
  unfold alerts_of.
  pose proof (NoDup_most_common 100 _ (NoDup_Counter (w0 :: words))) as Hnd.
  assert (∀ x, x ∈ most_common 30 (Counter (w0 :: words)) →
            trend_of (dict (most_common 100 (Counter (w0 :: words)))) x.1 x.2 = [])
    as Hnone.
  { intros [w c] Hin. simpl. apply trend_of_same.
    - eapply Counter_positive, elem_of_most_common, Hin.
    - apply lookup_dict; [done|]. by apply (most_common_le 30 100); [lia|]. }
  induction (most_common 30 (Counter (w0 :: words))) as [|x l IH]; [done|].
  rewrite bind_cons, Hnone by by left. simpl. apply IH.
  intros y Hy. apply Hnone. by right.
Qed.

(** X8. After [detect_trends] on a non-empty token sequence every retained
    entry maps a token of the sequence to its number of occurrences, which
    is positive; when the sequence has at most 100 distinct tokens, every
    token of the sequence is retained. *)
Theorem retained_counts_are_occurrences (st : state) (words : list string) :
  words ≠ [] →
  let retained := previous_trends (detect_trends words st).2 in
  (∀ w c, retained !! w = Some c → w ∈ words ∧ c = occurrences w words ∧ 0 < c)
  ∧ ((distinct words ≤ 100)%nat →
     ∀ w, w ∈ words → retained !! w = Some (occurrences w words)).
Proof.
  intros Hne retained. subst retained.
  rewrite detect_trends_nonempty by done. simpl.
  pose proof (NoDup_most_common 100 _ (NoDup_Counter words)) as Hnd.
  split.
  - intros w c Hw. apply lookup_dict in Hw; [|done].
    apply elem_of_most_common in Hw.
    pose proof (Counter_positive _ _ _ Hw).
    by apply elem_of_Counter in Hw as [? ?].
  - intros Hfew w Hw. apply lookup_dict; [done|].
    unfold most_common.
    rewrite take_ge by (rewrite length_sorted_desc, length_Counter_distinct; lia).
    apply (elem_of_sorted_desc snd), elem_of_Counter. by split.
Qed.

(** Two distinct tokens: both are retained, [alpha] with its three
    occurrences. *)
Lemma retained_counts_are_occurrences_witness :
  rocket_words ≠ []
  ∧ (distinct rocket_words ≤ 100)%nat
  ∧ previous_trends (detect_trends rocket_words fresh_state).2 !! "alpha"
    = Some (occurrences "alpha" rocket_words).
Proof.
  assert (rocket_words ≠ []) as Hne by (vm_compute; discriminate).
  assert (distinct rocket_words ≤ 100)%nat as Hfew by (vm_compute; lia).
  split; [exact Hne|]. split; [exact Hfew|].
  destruct (retained_counts_are_occurrences fresh_state rocket_words Hne) as [_ Hall].
  apply (Hall Hfew). vm_compute. right. by repeat constructor.
Defined.

(** ** Persistence and the loop *)
Section loop_facts.
Implicit Types (w : world) (st : state) (words : list string).

Lemma sum_of_counts_rows (src : string) (ts : Z) (counts : list (string * Z)) :
  sum_of_counts ((λ item, TrendRow item.1 item.2 src ts) <$> counts) = sum_counts counts.
Proof. induction counts as [|[k n] counts IH]; simpl; [done|]. f_equal. exact IH. Qed.

Lemma previous_trends_run_cycle w st :
  previous_trends (run_cycle w st).2 = retained_after (previous_trends st) w.
Proof.
  rewrite run_cycle_cases. cbv zeta. unfold retained_after.
  destruct (scraped w).1 as [|w0 words]; [done|]. by destruct (db_writable w).
Qed.

Lemma db_run_cycle w st :
  db (run_cycle w st).2 =
    match (scraped w).1 with
    | [] => db st
    | words =>
        if db_writable w
        then saved w words (alerts_of (previous_trends st) words) (db st)
        else db st
    end.
Proof.
  rewrite run_cycle_cases. cbv zeta.
  destruct (scraped w).1 as [|w0 words]; [done|]. by destruct (db_writable w).
Qed.

Lemma db_run_cycle_grows w st :
  trends_table (db st) `prefix_of` trends_table (db (run_cycle w st).2)
  ∧ alerts_table (db st) `prefix_of` alerts_table (db (run_cycle w st).2).
Proof.
  rewrite db_run_cycle. destruct (scraped w).1 as [|w0 words]; [done|].
  destruct (db_writable w); [|done]. split; by eexists.
Qed.

Lemma size_retained_after (previous : gmap string Z) w :
  (size previous ≤ 100)%nat → (size (retained_after previous w) ≤ 100)%nat.
Proof.
  intros Hsize. unfold retained_after.
  destruct (scraped w).1 as [|w0 words]; [done|].
  rewrite size_dict by apply NoDup_most_common, NoDup_Counter.
  rewrite length_most_common. lia.
Qed.

Lemma run_forever_turns_cons w (worlds : list world) st :
  run_forever_turns (w :: worlds) st = run_forever_turns worlds (run_forever_step w st).2.
Proof.
  simpl. unfold bind. destruct (run_forever_step_state w st) as (Hok & _).
  destruct (run_forever_step w st) as [[[]|e] st']; simpl in *; [done|discriminate].
Qed.
End loop_facts.

(** X9. When the database can be written, [save_data] keeps every row
    already stored and appends: one [trends] row per distinct token, with
    the token's number of occurrences, the source [reddit] and the
    timestamp of the call, the counts adding up to the number of tokens; and
    one [alerts] row per alert, in order. It leaves the retained mapping
    alone. When the database cannot be written it raises and changes
    nothing. *)
Theorem save_data_appends (w : world) (words : list string) (trends : list alert)
    (st : state) :
  if db_writable w then
    ∃ new_trends new_alerts,
      (save_data w words trends st).1 = Ok tt
      ∧ previous_trends (save_data w words trends st).2 = previous_trends st
      ∧ trends_table (db (save_data w words trends st).2)
        = trends_table (db st) ++ new_trends
      ∧ alerts_table (db (save_data w words trends st).2)
        = alerts_table (db st) ++ new_alerts
      ∧ length new_trends = distinct words
      ∧ NoDup (trend_word <$> new_trends)
      ∧ sum_of_counts new_trends = Z.of_nat (length words)
      ∧ Forall (λ r, trend_word r ∈ words
                     ∧ trend_count r = occurrences (trend_word r) words
                     ∧ trend_source r = "reddit"
                     ∧ trend_timestamp r = now w) new_trends
      ∧ Forall2 (λ a r, row_word r = alert_word a ∧ row_count r = alert_count a
                        ∧ row_change_percent r = alert_change a
                        ∧ row_alert_type r = alert_kind a
                        ∧ row_timestamp r = now w) trends new_alerts
  else save_data w words trends st = (Raise SqliteError, st).
Proof.
  rewrite save_data_cases. destruct (db_writable w); [|done].
  eexists _, _. simpl. repeat (split; [reflexivity|]).
  split; [by rewrite length_fmap, length_Counter_distinct|]. split; [|split; [|split]].
  - rewrite <- list_fmap_compose. apply NoDup_Counter.
  - by rewrite sum_of_counts_rows, sum_counts_Counter.
  - apply Forall_fmap, Forall_forall. intros [k n] [Hin ->]%elem_of_Counter. done.
  - apply Forall2_fmap_r, Forall2_same_length_lookup. split; [done|].
    intros i a b Ha Hb. by assert (a = b) as -> by congruence.
Qed.

(** X10. [run_cycle] either completes or raises the error of [save_data];
    it raises only when tokens were collected and the database cannot be
    written, and then the database is as before. In every case the rows
    already stored and the lines already logged are kept, new ones coming
    after them. *)
Theorem run_cycle_outcomes (w : world) (st : state) :
  ((run_cycle w st).1 = Ok tt
   ∨ ((run_cycle w st).1 = Raise SqliteError
      ∧ db_writable w = false ∧ (scraped w).1 ≠ []
      ∧ db (run_cycle w st).2 = db st))
  ∧ (db_writable w = true ∨ (scraped w).1 = [] → (run_cycle w st).1 = Ok tt)
  ∧ trends_table (db st) `prefix_of` trends_table (db (run_cycle w st).2)
  ∧ alerts_table (db st) `prefix_of` alerts_table (db (run_cycle w st).2)
  ∧ log st `prefix_of` log (run_cycle w st).2.
Proof.
  pose proof (db_run_cycle_grows w st) as [Ht Ha].
  split; [|split; [|split; [done|split; [done|]]]].
  - rewrite run_cycle_cases. cbv zeta.
    destruct (scraped w).1 as [|w0 words]; [by left|].
    destruct (db_writable w); [by left|by right].
  - rewrite run_cycle_cases. cbv zeta.
    destruct (scraped w).1 as [|w0 words]; [done|].
    destruct (db_writable w); [done|]. by intros [?|?].
  - rewrite run_cycle_cases. cbv zeta.
    destruct (scraped w).1 as [|w0 words]; [by eexists|].
    destruct (db_writable w); by eexists.
Qed.

(** X11. The loop of [run_forever] outlives every failure: whatever the
    worlds of its turns, fetch or persistence failing or not, no exception
    leaves a turn, and the rows stored before the turns are still there,
    unchanged and first, after them. *)
Theorem run_forever_survives (worlds : list world) (st : state) :
  (run_forever_turns worlds st).1 = Ok tt
  ∧ trends_table (db st) `prefix_of` trends_table (db (run_forever_turns worlds st).2)
  ∧ alerts_table (db st) `prefix_of` alerts_table (db (run_forever_turns worlds st).2).
Proof.
  revert st. induction worlds as [|w worlds IH]; intros st; [done|].
  rewrite run_forever_turns_cons.
  destruct (IH (run_forever_step w st).2) as (Hok & Ht & Ha).
  destruct (run_forever_step_state w st) as (_ & _ & Hdb).
  destruct (db_run_cycle_grows w st) as [Ht' Ha'].
  rewrite Hdb in Ht, Ha.
  split; [done|]. split; [by etrans|by etrans].
Qed.

(** X17. One turn of the loop never raises. After a cycle that completed
    or was skipped it logs that it sleeps; after a cycle that raised, which
    only the persistence error can cause, it logs that error; it changes
    nothing else in what the cycle left. *)
Theorem run_forever_step_logs (w : world) (st : state) :
  run_forever_step w st =
    (Ok tt,
     logged (run_cycle w st).2
       [match (run_cycle w st).1 with
        | Ok _ => Info_sleeping
        | Raise e => Error_unexpected e
        end])
  ∧ ((run_cycle w st).1 = Ok tt ∨ (run_cycle w st).1 = Raise SqliteError).
Proof.
  split.
  - unfold run_forever_step, try_except, bind.
    by destruct (run_cycle w st) as [[[]|e] st'].
  - rewrite run_cycle_cases. cbv zeta.
    destruct (scraped w).1 as [|w0 words]; [by left|].
    destruct (db_writable w); [by left|by right].
Qed.

(** X12. After any number of turns of the loop the retained mapping is
    the top 100 of the table of the last turn that collected tokens (the
    one before the turns when none did), whether or not that turn could
    persist; so a mapping of at most 100 entries stays one. *)
Theorem run_forever_baseline (worlds : list world) (st : state) :
  (size (previous_trends st) ≤ 100)%nat →
  previous_trends (run_forever_turns worlds st).2
    = foldl retained_after (previous_trends st) worlds
  ∧ (size (previous_trends (run_forever_turns worlds st).2) ≤ 100)%nat.
Proof.
  revert st. induction worlds as [|w worlds IH]; intros st Hsize; [done|].
  rewrite run_forever_turns_cons.
  destruct (run_forever_step_state w st) as (_ & Hprev & _).
  rewrite previous_trends_run_cycle in Hprev.
  destruct (IH (run_forever_step w st).2) as [Heq Hle].
  { rewrite Hprev. by apply size_retained_after. }
  split; [|done]. rewrite Heq, Hprev. done.
Qed.

(** After the three sample turns the mapping is that of the third, three
    times [rocket]: the first left six, the second collected nothing. *)
Lemma run_forever_baseline_witness :
  (size (previous_trends fresh_state) ≤ 100)%nat
  ∧ previous_trends (run_forever_turns three_turns fresh_state).2
    = dict [("rocket", 3)].
Proof.
  assert (size (previous_trends fresh_state) ≤ 100)%nat as Hsize
    by (vm_compute; lia).
  split; [exact Hsize|].
  destruct (run_forever_baseline three_turns fresh_state Hsize) as [-> _].
  vm_compute. reflexivity.
Defined.

(** ** From the monitor to the dashboard *)
Section dashboard_facts.
Import CloudDatabase.
Implicit Types (d : database) (counts : list (string * Z)).

Lemma insert_desc_fmap {A B} (key : A → Z) (key' : B → Z) (g : A → B) x (l : list A) :
  (∀ y, key' (g y) = key y) →
  insert_desc key' (g x) (g <$> l) = g <$> insert_desc key x l.
Proof.
  intros Hkey. induction l as [|y l IH]; [done|].
  rewrite fmap_cons. simpl. rewrite !Hkey.
  case_decide; [done|]. by rewrite IH.
Qed.

Lemma sorted_desc_fmap {A B} (key : A → Z) (key' : B → Z) (g : A → B) (l : list A) :
  (∀ y, key' (g y) = key y) →
  sorted_desc key' (g <$> l) = g <$> sorted_desc key l.
Proof.
  intros Hkey. induction l as [|x l IH]; [done|].
  rewrite fmap_cons. unfold sorted_desc in *. simpl. rewrite IH.
  by apply insert_desc_fmap.
Qed.

(** The rows of one cycle are one per token: grouping them changes
    nothing. *)
Lemma group_by_cycle_rows (src : string) (ts : Z) counts :
  NoDup counts.*1 →
  group_by_word_source ((λ item, TrendRow item.1 item.2 src ts) <$> counts)
  = (λ item, (item.1, item.2, src)) <$> counts.
Proof.
  induction counts as [|[k n] counts IH] using rev_ind; intros Hnd; [done|].
  rewrite fmap_app in Hnd. apply NoDup_app in Hnd as (Hnd & Hk & _).
  rewrite !fmap_app. simpl. rewrite group_by_snoc, IH by done.
  apply add_to_group_fresh. simpl.
  intros ([[k' n'] src'] & Heq & Hin)%list_elem_of_fmap.
  unfold group_key in Heq. simpl in Heq. assert (k' = k) as -> by congruence.
  apply list_elem_of_fmap in Hin as ([k'' n''] & Heq' & Hin). simpl in Heq'.
  assert (k'' = k) as -> by congruence.
  apply (Hk k); [by apply (list_elem_of_fmap_2 fst) in Hin|by left].
Qed.

Lemma select_recent_sorted d (cutoff : Z) :
  (length (select_recent d cutoff) ≤ 20)%nat
  ∧ StronglySorted (λ a b, total_count b <= total_count a) (select_recent d cutoff).
Proof.
  unfold select_recent. split; [rewrite length_take; lia|].
  eapply StronglySorted_weaken;
    [|apply (take_sorted_desc_ranked total_count (λ _ _, True)), StronglySorted_trivial].
  intros a b _ _. apply ranked_key_le.
Qed.

Lemma filter_all {A} (P : A → Prop) `{!∀ x, Decision (P x)} (l : list A) :
  Forall P l → filter P l = l.
Proof.
  induction 1 as [|x l Hx Hl IH]; [done|]. by rewrite filter_cons_True, IH.
Qed.

Lemma filter_none {A} (P : A → Prop) `{!∀ x, Decision (P x)} (l : list A) :
  Forall (λ x, ¬ P x) l → filter P l = [].
Proof.
  induction 1 as [|x l Hx Hl IH]; [done|]. by rewrite filter_cons_False.
Qed.

(** The query on a database that holds the rows of one cycle only. *)
Lemma select_recent_one_cycle (w : world) (words : list string) (trends : list alert)
    d (cutoff : Z) :
  trends_table d = [] → cutoff < now w →
  select_recent (saved w words trends d) cutoff
  = (λ item, (item.1, item.2, "reddit")) <$> most_common 20 (Counter words).
Proof.
  intros Hempty Hcut. unfold select_recent, saved. simpl. rewrite Hempty. simpl.
  rewrite filter_all.
  2:{ apply Forall_fmap, Forall_forall. by intros [k n] _. }
  rewrite group_by_cycle_rows by apply NoDup_Counter.
  rewrite (sorted_desc_fmap snd) by done.
  unfold most_common. by rewrite fmap_take.
Qed.

Lemma foldl_snoc_fmap {A B} (f : A → B) (l : list A) (acc : list B) :
  foldl (λ acc x, acc ++ [f x]) acc l = acc ++ (f <$> l).
Proof.
  revert acc. induction l as [|x l IH]; intros acc; simpl.
  - by rewrite app_nil_r.
  - by rewrite IH, <- app_assoc.
Qed.

Lemma cutoff_of_day (now : Z) (hours : Q) (delta : Z) :
  timedelta_hours hours = Ok delta →
  0 <= delta <= day_us →
  datetime_min + day_us <= now <= datetime_max →
  cutoff_of now hours = Ok (now - delta).
Proof.
  intros Hd Hdelta Hnow. unfold cutoff_of. rewrite Hd.
  rewrite decide_True; [done|]. unfold day_us, datetime_min, datetime_max in *. lia.
Qed.

(** The windows the route can ask for: 612 seconds, one, six and twenty-four
    hours. *)
Lemma hours_map_windows (timeframe : string) :
  ∃ delta, timedelta_hours (default 1%Q (App.hours_map !! timeframe)) = Ok delta
           ∧ 0 <= delta <= day_us.
Proof.
  destruct (App.hours_map !! timeframe) as [h|] eqn:E.
  - apply elem_of_list_to_map_2 in E.
    repeat (apply elem_of_cons in E as [[= _ ->]|E];
            [eexists; split; [vm_compute; reflexivity|vm_compute; split; discriminate]|]).
    by apply elem_of_nil in E.
  - eexists. split; [vm_compute; reflexivity|vm_compute; split; discriminate].
Qed.

Lemma size_list_to_set_le (l : list string) :
  (size (list_to_set l : gset string) ≤ length l)%nat.
Proof.
  induction l as [|x l IH]; [done|]. simpl.
  destruct (decide (x ∈ (list_to_set l : gset string))) as [Hin|Hnot].
  - replace ({[x]} ∪ list_to_set l : gset string) with (list_to_set l : gset string)
      by set_solver. lia.
  - rewrite size_union by set_solver. rewrite size_singleton. lia.
Qed.

Lemma length_filter_impl {A} (P Q : A → Prop) `{!∀ x, Decision (P x)}
    `{!∀ x, Decision (Q x)} (l : list A) :
  (∀ x, P x → Q x) → (length (filter P l) ≤ length (filter Q l))%nat.
Proof.
  intros HPQ. induction l as [|x l IH]; [done|].
  rewrite !filter_cons. destruct (decide (P x)) as [HP|HP].
  - rewrite decide_True by auto. simpl. lia.
  - destruct (decide (Q x)); simpl; lia.
Qed.
End dashboard_facts.

(** X13. The monitor and the dashboard, end to end. After one cycle on a
    database with no [trends] row yet, which could be written, a query
    whose cutoff is before the cycle returns the tokens of that cycle: as
    many rows as there are distinct tokens, 20 at most, each a token of the
    cycle with its number of occurrences and the source [reddit], no token
    twice, in decreasing order of count, and a token left out occurs no
    more often than any token returned. *)
Theorem cycle_then_recent_trends (w : world) (st : state) (now' : Z) (hours : Q)
    (cutoff : Z) :
  trends_table (db st) = [] →
  db_writable w = true →
  CloudDatabase.cutoff_of now' hours = Ok cutoff →
  cutoff < now w →
  let words := (scraped w).1 in
  ∃ rows,
    CloudDatabase.get_recent_trends (db (run_cycle w st).2) now' hours = Ok rows
    ∧ length rows = (20 `min` distinct words)%nat
    ∧ NoDup ((λ row, row.1.1) <$> rows)
    ∧ Forall (λ row, row.1.1 ∈ words
                     ∧ row.1.2 = occurrences row.1.1 words
                     ∧ row.2 = "reddit") rows
    ∧ StronglySorted (λ a b, b.1.2 <= a.1.2) rows
    ∧ (∀ token row, token ∈ words → row ∈ rows →
         token ∈ (λ row, row.1.1) <$> rows
         ∨ occurrences token words <= row.1.2).
Proof.
  intros Hempty Hw Hcut Hlt words.
  exists ((λ item, (item.1, item.2, "reddit")) <$> most_common 20 (Counter words)).
  assert (CloudDatabase.get_recent_trends (db (run_cycle w st).2) now' hours
          = Ok ((λ item, (item.1, item.2, "reddit")) <$> most_common 20 (Counter words)))
    as Hrows.
  { rewrite get_recent_trends_cases, Hcut, db_run_cycle. f_equal. fold words.
    destruct words as [|w0 ws] eqn:E.
    - unfold CloudDatabase.select_recent. by rewrite Hempty.
    - rewrite Hw. by apply select_recent_one_cycle. }
  split; [exact Hrows|]. split; [|split; [|split; [|split]]].
  - by rewrite length_fmap, length_most_common, length_Counter_distinct.
  - rewrite <- list_fmap_compose. apply NoDup_most_common, NoDup_Counter.
  - apply Forall_fmap, Forall_forall. intros [k n] Hin. simpl.
    apply elem_of_most_common, elem_of_Counter in Hin as [? ?]. done.
  - apply (StronglySorted_fmap _ (outranks words)); [|apply most_common_outranks].
    intros [a na] [b nb]. unfold outranks. simpl. lia.
  - intros token row Htoken ([k n] & -> & Hin)%list_elem_of_fmap. simpl.
    rewrite <- list_fmap_compose.
    assert ((token, occurrences token words) ∈ sorted_desc snd (Counter words)) as Hall
      by by apply (elem_of_sorted_desc snd), elem_of_Counter.
    rewrite <- (take_drop 20 (sorted_desc snd (Counter words))) in Hall.
    apply elem_of_app in Hall as [Hall|Hall].
    + left. by apply (list_elem_of_fmap_2 fst) in Hall.
    + right.
      pose proof (take_sorted_desc_top snd _ 20 (Counter words) (k, n)
                    (token, occurrences token words)
                    (Counter_first_occurrence words) Hin Hall) as Hr.
      by apply ranked_key_le in Hr.
Qed.

(** One cycle with three [rocket], then a query over the last hour. *)
Lemma cycle_then_recent_trends_witness :
  trends_table (db fresh_state) = []
  ∧ db_writable world_first_unavailable = true
  ∧ CloudDatabase.cutoff_of 1000 1 = Ok (-3599999000)
  ∧ -3599999000 < now world_first_unavailable
  ∧ ∃ rows,
      CloudDatabase.get_recent_trends
        (db (run_cycle world_first_unavailable fresh_state).2) 1000 1 = Ok rows
      ∧ length rows = 1%nat
      ∧ Forall (λ row, row.1.1 ∈ (scraped world_first_unavailable).1
                       ∧ row.1.2 = occurrences row.1.1 (scraped world_first_unavailable).1
                       ∧ row.2 = "reddit") rows.
Proof.
  assert (CloudDatabase.cutoff_of 1000 1 = Ok (-3599999000)) as Hcut
    by (vm_compute; reflexivity).
  assert (-3599999000 < now world_first_unavailable) as Hlt by (vm_compute; reflexivity).
  split; [reflexivity|]. split; [reflexivity|]. split; [exact Hcut|]. split; [exact Hlt|].
  destruct (cycle_then_recent_trends world_first_unavailable fresh_state 1000 1
              (-3599999000) eq_refl eq_refl Hcut Hlt)
    as (rows & Hrows & Hlen & _ & Hall & _).
  exists rows. split; [exact Hrows|]. split; [|exact Hall].
  rewrite Hlen. vm_compute. reflexivity.
Defined.

(** X14. On a clock at least one day after the first representable instant,
    the route [get_trends] answers for every timeframe string, a name of
    the map or not: at most 20 items, in decreasing order of count, each
    marked hot exactly when its count is above 10, so that the hot items
    come first; a timeframe that is not in the map is served as [1hour]. *)
Theorem get_trends_answers (d : database) (now : Z) (timeframe : string) :
  CloudDatabase.datetime_min + CloudDatabase.day_us <= now <= CloudDatabase.datetime_max →
  ∃ items,
    App.get_trends d now timeframe = Ok items
    ∧ (length items ≤ 20)%nat
    ∧ StronglySorted (λ a b, App.item_count b <= App.item_count a) items
    ∧ Forall (λ i, App.item_emoji i = App.Fire ↔ 10 < App.item_count i) items
    ∧ StronglySorted (λ a b, App.item_emoji b = App.Fire → App.item_emoji a = App.Fire)
        items
    ∧ (App.hours_map !! timeframe = None →
       App.get_trends d now timeframe = App.get_trends d now "1hour").
Proof.
  intros Hnow. unfold App.get_trends at 1. cbv zeta.
  destruct (hours_map_windows timeframe) as (delta & Hdelta & Hday).
  rewrite get_recent_trends_cases, (cutoff_of_day _ _ _ Hdelta Hday Hnow).
  rewrite (foldl_snoc_fmap
             (λ row, App.TrendItem row.1.1 row.1.2 row.2
                       (if decide (10 < row.1.2) then App.Fire else App.Chart))).
  simpl. eexists. split; [reflexivity|].
  destruct (select_recent_sorted d (now - delta)) as [Hlen Hsorted].
  assert (StronglySorted (λ a b, App.item_count b <= App.item_count a)
            ((λ row, App.TrendItem row.1.1 row.1.2 row.2
                       (if decide (10 < row.1.2) then App.Fire else App.Chart))
               <$> CloudDatabase.select_recent d (now - delta))) as Hitems.
  { eapply StronglySorted_fmap; [|exact Hsorted]. by intros [[? ?] ?] [[? ?] ?]. }
  assert (Forall (λ i, App.item_emoji i = App.Fire ↔ 10 < App.item_count i)
            ((λ row, App.TrendItem row.1.1 row.1.2 row.2
                       (if decide (10 < row.1.2) then App.Fire else App.Chart))
               <$> CloudDatabase.select_recent d (now - delta))) as Hemoji.
  { apply Forall_fmap, Forall_forall. intros [[? n] ?] _. simpl. by case_decide. }
  split; [by rewrite length_fmap|]. split; [done|]. split; [done|]. split.
  - eapply StronglySorted_weaken; [|exact Hitems].
    rewrite Forall_forall in Hemoji.
    intros a b Ha Hb Hab Hfire. apply Hemoji; [done|].
    apply Hemoji in Hfire; [lia|done].
  - intros Hnone. unfold App.get_trends. rewrite Hnone. done.
Qed.

(** A timeframe that is not in the map, on a database of three rows. *)
Lemma get_trends_answers_witness :
  CloudDatabase.datetime_min + CloudDatabase.day_us <= 10000000000
    <= CloudDatabase.datetime_max
  ∧ ∃ items,
      App.get_trends
        (Database [TrendRow "a" 3 "reddit" 7200000000; TrendRow "b" 5 "reddit" 7200000001;
                   TrendRow "a" 9 "reddit" 9000000000] [])
        10000000000 "whenever" = Ok items
      ∧ (length items ≤ 20)%nat
      ∧ Forall (λ i, App.item_emoji i = App.Fire ↔ 10 < App.item_count i) items.
Proof.
  assert (CloudDatabase.datetime_min + CloudDatabase.day_us <= 10000000000
          <= CloudDatabase.datetime_max) as Hnow by (vm_compute; split; discriminate).
  split; [exact Hnow|].
  destruct (get_trends_answers
              (Database [TrendRow "a" 3 "reddit" 7200000000;
                         TrendRow "b" 5 "reddit" 7200000001;
                         TrendRow "a" 9 "reddit" 9000000000] [])
              10000000000 "whenever" Hnow) as (items & Hitems & Hlen & _ & Hemoji & _).
  exists items. split; [exact Hitems|]. split; [exact Hlen|exact Hemoji].
Defined.

(** X15. The numbers [get_stats] returns are consistent, provided the
    cutoff of the second statement is not before that of the first (what
    the second selects, the first selects): the number of unique words is
    at most the number of trend rows counted, itself at most the number of
    rows stored; unique words are none exactly when the second statement
    selects no row; the alerts counted are at most the alerts stored; the
    status is [active]. *)
Theorem get_stats_consistent (recent1 recent2 recent3 : Z → bool) (d : database) :
  (∀ t, recent2 t = true → recent1 t = true) →
  let s := App.get_stats recent1 recent2 recent3 d in
  0 <= App.unique_words s <= App.total_trends s
  ∧ App.total_trends s <= Z.of_nat (length (trends_table d))
  ∧ (App.unique_words s = 0
     ↔ Forall (λ r, recent2 (trend_timestamp r) = false) (trends_table d))
  ∧ 0 <= App.alerts_today s <= Z.of_nat (length (alerts_table d))
  ∧ App.status s = "active".
Proof.
  intros Hmono s. subst s. unfold App.get_stats. simpl.
  set (rows2 := filter (λ r, recent2 (trend_timestamp r)) (trends_table d)).
  pose proof (size_list_to_set_le (trend_word <$> rows2)) as Hsize.
  rewrite length_fmap in Hsize.
  assert (length rows2
          ≤ length (filter (λ r, recent1 (trend_timestamp r)) (trends_table d)))%nat
    as Hle.
  { apply length_filter_impl. intros r Hr. apply Is_true_true.
    apply Hmono. by apply Is_true_true. }
  pose proof (length_filter (λ r, recent1 (trend_timestamp r)) (trends_table d)).
  pose proof (length_filter (λ r, recent3 (row_timestamp r)) (alerts_table d)).
  split; [lia|]. split; [lia|]. split; [|split; [lia|done]].
  split.
  - intros Hzero. apply Forall_forall. intros r Hr.
    destruct (recent2 (trend_timestamp r)) eqn:E; [|done]. exfalso.
    assert (trend_word r ∈ (list_to_set (trend_word <$> rows2) : gset string)) as Hin.
    { apply elem_of_list_to_set, list_elem_of_fmap_2, list_elem_of_filter.
      split; [by apply Is_true_true|done]. }
    assert (size (list_to_set (trend_word <$> rows2) : gset string) = 0%nat) as Hnone
      by lia.
    apply size_empty_inv in Hnone. set_solver.
  - intros Hnone. assert (rows2 = []) as ->; [|done].
    unfold rows2. apply filter_none. eapply Forall_impl; [exact Hnone|].
    intros r Hr Hrecent. simpl in Hr. rewrite Hr in Hrecent. exact Hrecent.
Qed.

(** Cutoffs 5 and 7 on a database of four rows. *)
Lemma get_stats_consistent_witness :
  (∀ t : Z, (7 <? t)%Z = true → (5 <? t)%Z = true)
  ∧ let s := App.get_stats (λ t, (5 <? t)%Z) (λ t, (7 <? t)%Z) (λ t, (5 <? t)%Z)
               (Database [TrendRow "a" 3 "reddit" 6; TrendRow "a" 4 "reddit" 8;
                          TrendRow "b" 1 "reddit" 9; TrendRow "c" 2 "reddit" 1] []) in
    0 <= App.unique_words s <= App.total_trends s
    ∧ App.total_trends s <= 4.
Proof.
  assert (∀ t : Z, (7 <? t)%Z = true → (5 <? t)%Z = true) as Hmono
    by (intros t Ht; apply Z.ltb_lt; apply Z.ltb_lt in Ht; lia).
  split; [exact Hmono|].
  destruct (get_stats_consistent (λ t, (5 <? t)%Z) (λ t, (7 <? t)%Z) (λ t, (5 <? t)%Z)
              (Database [TrendRow "a" 3 "reddit" 6; TrendRow "a" 4 "reddit" 8;
                         TrendRow "b" 1 "reddit" 9; TrendRow "c" 2 "reddit" 1] [])
              Hmono) as (Hunique & Htotal & _).
  split; [exact Hunique|exact Htotal].
Defined.

Example get_trends_example :
  App.get_trends
    (Database [TrendRow "a" 3 "reddit" 7200000000; TrendRow "b" 5 "reddit" 7200000001;
               TrendRow "a" 9 "reddit" 9000000000; TrendRow "c" 40 "reddit" 10] [])
    10000000000 "1hour"
  = Ok [App.TrendItem "a" 12 "reddit" App.Fire; App.TrendItem "b" 5 "reddit" App.Chart].
Proof. vm_compute. reflexivity. Qed.

Example get_stats_example :
  App.get_stats (λ t, (5 <? t)%Z) (λ t, (5 <? t)%Z) (λ t, (5 <? t)%Z)
    (Database [TrendRow "a" 3 "reddit" 6; TrendRow "a" 4 "reddit" 8;
               TrendRow "b" 1 "reddit" 9; TrendRow "c" 2 "reddit" 1]
              [AlertRow "a" 3 0 New 6])
  = App.Stats 3 2 1 "active".
Proof. vm_compute. reflexivity. Qed.

(** ** Two cycles in a row *)

Lemma retained_lookup (st : state) (words : list string) (w : string) :
  words ≠ [] → (distinct words ≤ 100)%nat →
  previous_trends (detect_trends words st).2 !! w
  = if decide (w ∈ words) then Some (occurrences w words) else None.
Proof.
  intros Hne Hfew. rewrite detect_trends_nonempty by done. simpl.
  pose proof (NoDup_most_common 100 _ (NoDup_Counter words)) as Hnd.
  assert (most_common 100 (Counter words) = sorted_desc snd (Counter words)) as Hall.
  { unfold most_common. apply take_ge.
    rewrite length_sorted_desc, length_Counter_distinct. lia. }
  case_decide as Hw.
  - apply lookup_dict; [done|]. rewrite Hall.
    apply (elem_of_sorted_desc snd), elem_of_Counter. by split.
  - apply lookup_dict_None; [done|]. rewrite Hall.
    intros ([k n] & -> & Hin)%list_elem_of_fmap. apply Hw.
    apply (elem_of_sorted_desc snd), elem_of_Counter in Hin as [? _]. done.
Qed.

(** X16. Two classifications in a row, the first on a non-empty sequence of
    at most 100 distinct tokens. An alert of the second is New only for a
    token that does not occur in the first sequence (and occurs at least 3
    times in the second), and Spike only for a token that occurs in both,
    at least one and a half times as often in the second as in the first;
    the state before the first classification plays no part. *)
Theorem consecutive_cycles_alerts (st : state) (words1 words2 : list string) :
  words1 ≠ [] →
  (distinct words1 ≤ 100)%nat →
  ∃ alerts,
    (detect_trends words2 (detect_trends words1 st).2).1 = Ok alerts
    ∧ ∀ a, a ∈ alerts →
        alert_count a = occurrences (alert_word a) words2
        ∧ match alert_kind a with
          | New => alert_word a ∉ words1 ∧ 3 <= alert_count a
          | Spike =>
              alert_word a ∈ words1
              ∧ 3 * occurrences (alert_word a) words1 <= 2 * alert_count a
          end.
Proof.
  intros Hne Hfew. destruct words2 as [|w0 words2].
  { exists []. split; [done|]. by intros a ?%elem_of_nil. }
  eexists. rewrite detect_trends_nonempty by done. split; [reflexivity|].
  intros a ([w c] & Ha & Hin)%list_elem_of_bind. simpl in Ha.
  apply elem_of_trend_of in Ha as [H2 Ha]. cbv zeta in Ha.
  rewrite retained_lookup in Ha by done.
  assert (c = occurrences w (w0 :: words2)) as Hocc.
  { apply elem_of_most_common in Hin. by apply elem_of_Counter in Hin as [_ ?]. }
  destruct Ha as [(-> & Hp & H3)|(-> & Hp & H32)]; simpl; (split; [done|]).
  - split; [|done]. intros Hw. rewrite decide_True in Hp by done. simpl in Hp.
    apply occurrences_pos in Hw. lia.
  - case_decide as Hw; simpl in *; [done|lia].
Qed.

(** Ten [rocket], then sixteen [rocket] and three [alpha]. *)
Lemma consecutive_cycles_alerts_witness :
  replicate 10 "rocket" ≠ []
  ∧ (distinct (replicate 10 "rocket") ≤ 100)%nat
  ∧ ∃ alerts,
      (detect_trends rocket_words
         (detect_trends (replicate 10 "rocket") fresh_state).2).1 = Ok alerts
      ∧ ∀ a, a ∈ alerts →
          alert_kind a = New → alert_word a ∉ replicate 10 "rocket".
Proof.
  assert (replicate 10 "rocket" ≠ []) as Hne by (vm_compute; discriminate).
  assert (distinct (replicate 10 "rocket") ≤ 100)%nat as Hfew by (vm_compute; lia).
  split; [exact Hne|]. split; [exact Hfew|].
  destruct (consecutive_cycles_alerts fresh_state (replicate 10 "rocket") rocket_words
              Hne Hfew) as (alerts & Hret & Hall).
  exists alerts. split; [exact Hret|]. intros a Ha Hkind.
  destruct (Hall a Ha) as [_ Hcase]. rewrite Hkind in Hcase. exact (proj1 Hcase).
Defined.
